(** * FaceDetector.tsx: a shallow embedding of the face-analysis component

    The component of [src/FaceDetector.tsx] wires webcam frames into
    face-api.js on a timer, copies the results into React state and draws
    overlays on a canvas.  Part I embeds its functions
    ([getDominantExpression], [getExpressionEmoji], [loadModels],
    [detectFaces], the interval effect and the three controls) for one
    mounted instance of the component; Part II proves properties about
    them; Part III runs the component on concrete inputs.

    Numbers.  A JavaScript number that is neither NaN nor infinite denotes
    one rational; [>] on such numbers is the order of the rationals, and
    [Math.round] and [toFixed] are defined by ECMAScript on that exact value.
    Numbers are therefore modelled as [Q], integers as [Z].  A value that the
    library may leave out ([detection.age], [detection.gender]) is an
    [option].

    Asynchrony.  [detectFaces] and [loadModels] suspend at their [await];
    each is split at that point into the part that runs when it is called
    and the part that runs when the awaited promise settles.  The browser's
    event loop is a step function over the events that can reach the
    component. *)

From Stdlib Require Import ZArith QArith Qround Qabs.
From Stdlib Require Import String List Bool Lia Lqa.
Import ListNotations.

Open Scope string_scope.
Open Scope list_scope.
Open Scope Q_scope.

(** * Part I: the embedding *)

(** ** ECMAScript and browser primitives used by the component *)

Module Js.

(** [a > b] on numbers. *)
Definition gt (a b : Q) : bool := negb (Qle_bool a b).

(** [Math.round x]: the integer closest to [x], a tie going towards
    positive infinity. *)
Definition Math_round (x : Q) : Z := Qfloor (x + (1 # 2)).

(** [parseFloat(x.toFixed(2))]: [toFixed] takes the integer [n] for which
    [n / 100] is closest to the magnitude of [x] (the larger [n] on a tie)
    and prints it with the sign of [x]; the value kept here is the decimal
    that was printed, [n / 100]. *)
Definition toFixed2 (x : Q) : Q :=
  if Qle_bool 0 x
  then Qfloor (x * 100 + (1 # 2)) # 100
  else (- Qfloor ((- x) * 100 + (1 # 2))) # 100.

(** [s || d] on a string that may be missing: [undefined] and the empty
    string are falsy. *)
Definition or_string (s : option string) (d : string) : string :=
  match s with
  | Some v => if String.eqb v "" then d else v
  | None => d
  end.

(** [x || d] on a number that may be missing: [undefined] and zero are
    falsy. *)
Definition or_number (x : option Q) (d : Q) : Q :=
  match x with
  | Some v => if Qeq_bool v 0 then d else v
  | None => d
  end.

(** The values a property read can produce here. *)
Inductive value :=
| VUndefined
| VString (s : string)
| VFunction (name : string)
| VObject (name : string).

Definition truthy (v : value) : bool :=
  match v with
  | VUndefined => false
  | VString s => negb (String.eqb s "")
  | VFunction _ | VObject _ => true
  end.

(** [v || d] *)
Definition or_value (v d : value) : value := if truthy v then v else d.

Fixpoint lookup {A : Type} (k : string) (props : list (string * A)) : option A :=
  match props with
  | [] => None
  | (k', a) :: rest => if String.eqb k k' then Some a else lookup k rest
  end.

(** The properties of [Object.prototype] (ECMAScript 20.1.3 and Annex
    B.2.2), which every object literal inherits. *)
Definition Object_prototype : list (string * value) :=
  [ ("constructor", VFunction "Object");
    ("hasOwnProperty", VFunction "hasOwnProperty");
    ("isPrototypeOf", VFunction "isPrototypeOf");
    ("propertyIsEnumerable", VFunction "propertyIsEnumerable");
    ("toLocaleString", VFunction "toLocaleString");
    ("toString", VFunction "toString");
    ("valueOf", VFunction "valueOf");
    ("__proto__", VObject "Object.prototype");
    ("__defineGetter__", VFunction "__defineGetter__");
    ("__defineSetter__", VFunction "__defineSetter__");
    ("__lookupGetter__", VFunction "__lookupGetter__");
    ("__lookupSetter__", VFunction "__lookupSetter__") ].

(** [o[k]] for an object literal [o] whose own properties are the strings
    [own]: an own property first, then the prototype chain. *)
Definition get (own : list (string * string)) (k : string) : value :=
  match lookup k own with
  | Some s => VString s
  | None =>
      match lookup k Object_prototype with
      | Some v => v
      | None => VUndefined
      end
  end.

(** How a promise settles. *)
Inductive Settled (A : Type) :=
| Fulfilled (a : A)
| Rejected (reason : string).

Arguments Fulfilled {A} a.
Arguments Rejected {A} reason.

(** [Promise.all]: fulfilled with every value when all are fulfilled,
    rejected otherwise.  [Promise.all] rejects with the reason of the
    promise that is rejected first in time; the order in which the promises
    settle is not modelled, and the reason kept here is that of the first
    rejected promise of the array.  Only the fact that some reason is
    logged is used below, never which one. *)
Fixpoint Promise_all {A : Type} (ps : list (Settled A)) : Settled (list A) :=
  match ps with
  | [] => Fulfilled []
  | Rejected reason :: _ => Rejected reason
  | Fulfilled a :: rest =>
      match Promise_all rest with
      | Fulfilled l => Fulfilled (a :: l)
      | Rejected reason => Rejected reason
      end
  end.

End Js.

(** ** Data model *)

(** [Object.entries] of an expressions object: its own properties in
    iteration order. *)
Definition FaceExpressions := list (string * Q).

(** interface FaceData *)
Record FaceData := mkFaceData {
  gender : string;
  age : Z;
  emotion : string;
  expressions : FaceExpressions
}.

Record Point := mkPoint { x : Q; y : Q }.

Record Box := mkBox { box_x : Q; box_y : Q; box_width : Q; box_height : Q }.

(** One element of the array [detectAllFaces(...).withFaceLandmarks()
    .withFaceExpressions().withAgeAndGender()] resolves to:
    [detection.detection.box], [detection.landmarks.positions],
    [detection.expressions], [detection.age], [detection.gender]. *)
Module Detection.

Record t := mk {
  box : Box;
  positions : list Point;
  expressions : FaceExpressions;
  age : option Q;
  gender : option string
}.

End Detection.

Record Dimensions := mkDimensions { width : Z; height : Z }.

Inductive DisplayMode := mode_landmarks | mode_expressions | mode_mesh.

Definition DisplayMode_eqb (a b : DisplayMode) : bool :=
  match a, b with
  | mode_landmarks, mode_landmarks
  | mode_expressions, mode_expressions
  | mode_mesh, mode_mesh => true
  | _, _ => false
  end.

(** ** getDominantExpression (lines 51-63) *)

(** The body of the [forEach] callback, on the pair of locals
    [(maxValue, dominantExpression)]. *)
Definition dominant_step (acc : Q * string) (entry : string * Q) : Q * string :=
  let '(maxValue, dominantExpression) := acc in
  let '(expression, value) := entry in
  if Js.gt value maxValue then (value, expression)
  else (maxValue, dominantExpression).

Definition getDominantExpression (expressions : FaceExpressions) : string :=
  snd (fold_left dominant_step expressions (0, "")).

(** ** getExpressionEmoji (lines 66-78) *)

Definition emojiMap : list (string * string) :=
  [ ("neutral", "😐");
    ("happy", "😀");
    ("sad", "😔");
    ("angry", "😠");
    ("fearful", "😨");
    ("disgusted", "🤢");
    ("surprised", "😲") ].

Definition getExpressionEmoji (expression : string) : Js.value :=
  Js.or_value (Js.get emojiMap expression) (Js.VString "❓").

(** ** The FaceData of one detection (lines 104-116) *)

Definition toFaceData (detection : Detection.t) : FaceData :=
  let expressions := Detection.expressions detection in
  let dominantExpression := getDominantExpression expressions in
  {| gender := Js.or_string (Detection.gender detection) "desconocido";
     age := Js.Math_round (Js.or_number (Detection.age detection) 0);
     emotion := dominantExpression;
     expressions :=
       map (fun '(key, value) => (key, Js.toFixed2 value)) expressions |}.

(** ** Text and the drawing surface *)

(** A template literal or a JSX text node: its pieces in order. *)
Inductive Fragment :=
| TInteger (n : Z)
| TNumber (q : Q)
| TText (s : string)
| TValue (v : Js.value).

Definition Text := list Fragment.

Inductive Angle :=
| Radians (q : Q)
| TimesPI (q : Q).

(** What reaches the canvas: the calls the component makes on its 2d
    context, the remaining path calls of that context, and one command per
    face-api.js drawing helper, which paints on its own. *)
Inductive DrawCmd :=
| SetStrokeStyle (style : string)
| SetLineWidth (w : Q)
| SetFillStyle (style : string)
| SetFont (font : string)
| BeginPath
| Arc (cx cy radius : Q) (startAngle endAngle : Angle)
| Fill
| MoveTo (px py : Q)
| LineTo (px py : Q)
| Stroke
| FillRect (rx ry rw rh : Q)
| FillText (text : Text) (tx ty : Q)
| DrawDetections (resized : list Detection.t)
| DrawFaceLandmarks (resized : list Detection.t)
| DrawFaceExpressions (resized : list Detection.t).

(** The commands that put a line between two points on the surface:
    stroking a path that was extended by [lineTo], and the library's
    landmark helper, which joins the landmarks of each facial feature. *)
Definition draws_edges (c : DrawCmd) : bool :=
  match c with
  | LineTo _ _ | Stroke | DrawFaceLandmarks _ => true
  | _ => false
  end.

(** The canvas element: its size, whether [getContext('2d')] yields a
    context, and what has been drawn since the surface was last blank. *)
Record Canvas := mkCanvas {
  size : Dimensions;
  context2d : bool;
  drawn : list DrawCmd
}.

(** [faceapi.matchDimensions(canvas, displaySize)] assigns [canvas.width]
    and [canvas.height].  Assigning either, even the value it already has,
    resets the bitmap of a canvas (HTML Standard, the canvas element). *)
Definition matchDimensions (canvas : Canvas) (displaySize : Dimensions) : Canvas :=
  {| size := displaySize; context2d := context2d canvas; drawn := [] |}.

(** A sequence of drawing statements: the canvas after it, and the error
    it threw, if any. *)
Definition Paint := Canvas -> Canvas * option string.

Definition skip : Paint := fun canvas => (canvas, None).

Definition throw (error : string) : Paint := fun canvas => (canvas, Some error).

Definition issue (cmds : list DrawCmd) : Paint :=
  fun canvas =>
    ({| size := size canvas;
        context2d := context2d canvas;
        drawn := drawn canvas ++ cmds |}, None).

Definition andThen (p q : Paint) : Paint :=
  fun canvas =>
    match p canvas with
    | (canvas', None) => q canvas'
    | thrown => thrown
    end.

Notation "p ;; q" := (andThen p q) (at level 61, right associativity).

(** [ctx.clearRect(0, 0, canvas.width, canvas.height)] *)
Definition clearRect : Paint :=
  fun canvas =>
    ({| size := size canvas; context2d := context2d canvas; drawn := [] |}, None).

(** [if (ctx) { ... }] where [ctx = canvas.getContext('2d')] *)
Definition ifCtx (p : Paint) : Paint :=
  fun canvas => if context2d canvas then p canvas else skip canvas.

(** A drawing helper of face-api.js ([drawDetections],
    [drawFaceLandmarks], [drawFaceExpressions]): it goes through the
    detections it is given and, for each one, asks the canvas for its 2d
    context itself, throwing when there is none; given no detection it
    does nothing. *)
Definition helper (draw : list Detection.t -> DrawCmd)
    (detections : list Detection.t) : Paint :=
  fun canvas =>
    if context2d canvas then issue [draw detections] canvas
    else
      match detections with
      | [] => skip canvas
      | _ :: _ => throw "canvas 2d context is null" canvas
      end.

(** [array.forEach((element, idx) => ...)], from index [idx] on. *)
Fixpoint forEach {A : Type} (f : A -> nat -> Paint) (l : list A) (idx : nat) : Paint :=
  match l with
  | [] => skip
  | a :: rest => f a idx ;; forEach f rest (S idx)
  end.

(** ** The body of the mesh branch (lines 138-155) *)

(** One turn of the [for] loop over [points]. *)
Definition meshPoint (point : Point) : list DrawCmd :=
  [ BeginPath;
    Arc (x point) (y point) 2 (Radians 0) (TimesPI 2);
    SetFillStyle "#36f";
    Fill ].

Definition meshFace (detection : Detection.t) : list DrawCmd :=
  let points := Detection.positions detection in
  [SetStrokeStyle "#36f"; SetLineWidth 1] ++ flat_map meshPoint points.

Definition drawMesh (resizedDetections : list Detection.t) : Paint :=
  forEach (fun detection _ => ifCtx (issue (meshFace detection)))
          resizedDetections 0.

(** ** The details panel (lines 159-192) *)

Definition panel (detection : Detection.t) (faceData : FaceData) : list DrawCmd :=
  let box := Detection.box detection in
  [ SetFillStyle "rgba(0, 0, 0, 0.6)";
    FillRect (box_x box) (box_y box - 50) (box_width box) 50;
    SetFont "16px Arial";
    SetFillStyle "white";
    FillText [TInteger (age faceData); TText " años, ";
              TText (if String.eqb (gender faceData) "male"
                     then "Hombre" else "Mujer")]
             (box_x box + 5) (box_y box - 30);
    SetFont "20px Arial";
    FillText [TValue (getExpressionEmoji (emotion faceData)); TText " ";
              TText (emotion faceData)]
             (box_x box + 5) (box_y box - 10) ].

(** [faceDataArray[idx]] is [undefined] past the end of the array, and
    reading a property of [undefined] throws. *)
Definition drawDetails (resizedDetections : list Detection.t)
    (faceDataArray : list FaceData) : Paint :=
  forEach
    (fun detection idx =>
       ifCtx
         match nth_error faceDataArray idx with
         | Some faceData => issue (panel detection faceData)
         | None => throw "TypeError: Cannot read properties of undefined"
         end)
    resizedDetections 0.

(** ** The details list under the video (lines 326-374) *)

Record Chip := mkChip {
  chip_text : Text;
  chip_highlighted : bool
}.

Record FaceCard := mkFaceCard {
  card_title : Text;
  card_age : Text;
  card_gender : Text;
  card_emotion : Text;
  card_chips : list Chip
}.

Definition faceCard (face : FaceData) (index : nat) : FaceCard :=
  {| card_title := [TText "Rostro #"; TInteger (Z.of_nat index + 1)];
     card_age := [TText "Edad estimada:"; TInteger (age face); TText " años"];
     card_gender :=
       [TText "Género:";
        TText (if String.eqb (gender face) "male" then "Hombre" else "Mujer")];
     card_emotion :=
       [TText "Emoción dominante:"; TValue (getExpressionEmoji (emotion face));
        TText " "; TText (emotion face)];
     card_chips :=
       map (fun '(expr, value) =>
              {| chip_text := [TText expr; TText ": "; TNumber value];
                 chip_highlighted := String.eqb expr (emotion face) |})
           (expressions face) |}.

(** [array.map((element, index) => ...)], from index [index] on. *)
Fixpoint mapi {A B : Type} (f : A -> nat -> B) (l : list A) (index : nat) : list B :=
  match l with
  | [] => []
  | a :: rest => f a index :: mapi f rest (S index)
  end.

(** [facesData.length > 0 && (...)]: nothing is rendered for an empty
    collection. *)
Definition detailsList (facesData : list FaceData) : option (list FaceCard) :=
  if (0 <? length facesData)%nat then Some (mapi faceCard facesData 0) else None.

(** ** The component *)

(** What a [detectFaces] closes over: the state variables of the render
    that created it. *)
Record Closure := mkClosure {
  c_isModelLoaded : bool;
  c_detectionEnabled : bool;
  c_displayMode : DisplayMode;
  c_showDetails : bool
}.

(** A [detectFaces] suspended at its [await] (line 92): its closure and its
    local [displaySize]. *)
Record Pending := mkPending {
  p_closure : Closure;
  p_displaySize : Dimensions
}.

Inductive LogEntry :=
| console_log (message : string)
| console_error (message : string) (error : string).

(** The [useState] and [useRef] cells of the component, the two elements
    its refs point to, and what the browser holds for it: the intervals
    that are armed, each with the callback it was given, the promise of
    [loadModels], the calls of [detectFaces] that are awaiting, and the
    console. *)
Record State := mkState {
  isModelLoaded : bool;
  facesDetected : nat;
  detectionEnabled : bool;
  facesData : list FaceData;
  displayMode : DisplayMode;
  showDetails : bool;
  detectionInterval : option positive;
  video : option Dimensions;
  canvasRef : bool;
  canvas : Canvas;
  timers : list (positive * Closure);
  nextTimer : positive;
  loading : bool;
  inflight : list Pending;
  console : list LogEntry
}.

Definition setIsModelLoaded (v : bool) (st : State) : State :=
  let 'mkState _ b c d e f g h i j k l m n o := st in
  mkState v b c d e f g h i j k l m n o.

Definition setFacesDetected (v : nat) (st : State) : State :=
  let 'mkState a _ c d e f g h i j k l m n o := st in
  mkState a v c d e f g h i j k l m n o.

Definition setDetectionEnabled (v : bool) (st : State) : State :=
  let 'mkState a b _ d e f g h i j k l m n o := st in
  mkState a b v d e f g h i j k l m n o.

Definition setFacesData (v : list FaceData) (st : State) : State :=
  let 'mkState a b c _ e f g h i j k l m n o := st in
  mkState a b c v e f g h i j k l m n o.

Definition setDisplayMode (v : DisplayMode) (st : State) : State :=
  let 'mkState a b c d _ f g h i j k l m n o := st in
  mkState a b c d v f g h i j k l m n o.

Definition setShowDetails (v : bool) (st : State) : State :=
  let 'mkState a b c d e _ g h i j k l m n o := st in
  mkState a b c d e v g h i j k l m n o.

Definition set_canvas (v : Canvas) (st : State) : State :=
  let 'mkState a b c d e f g h i _ k l m n o := st in
  mkState a b c d e f g h i v k l m n o.

Definition set_loading (v : bool) (st : State) : State :=
  let 'mkState a b c d e f g h i j k l _ n o := st in
  mkState a b c d e f g h i j k l v n o.

Definition set_inflight (v : list Pending) (st : State) : State :=
  let 'mkState a b c d e f g h i j k l m _ o := st in
  mkState a b c d e f g h i j k l m v o.

Definition log (entry : LogEntry) (st : State) : State :=
  let 'mkState a b c d e f g h i j k l m n o := st in
  mkState a b c d e f g h i j k l m n (o ++ [entry]).

(** [setInterval(callback, 1500)]: arms an interval under a fresh id and
    returns the id, here stored straight into [detectionInterval.current]
    (line 212). *)
Definition setInterval_into_ref (callback : Closure) (st : State) : State :=
  let 'mkState a b c d e f _ h i j k l m n o := st in
  mkState a b c d e f (Some l) h i j (k ++ [(l, callback)]) (Pos.succ l) m n o.

(** [clearInterval(id)] *)
Definition clearInterval (id : positive) (st : State) : State :=
  let 'mkState a b c d e f g h i j k l m n o := st in
  mkState a b c d e f g h i j
          (filter (fun t => negb (Pos.eqb (fst t) id)) k) l m n o.

(** [if (detectionInterval.current) clearInterval(detectionInterval.current)];
    an interval id is a positive integer, hence truthy. *)
Definition clearCurrentInterval (st : State) : State :=
  match detectionInterval st with
  | Some id => clearInterval id st
  | None => st
  end.

(** The state variables as the current render sees them. *)
Definition closure (st : State) : Closure :=
  {| c_isModelLoaded := isModelLoaded st;
     c_detectionEnabled := detectionEnabled st;
     c_displayMode := displayMode st;
     c_showDetails := showDetails st |}.

(** ** loadModels (lines 34-48) *)

(** How the five [loadFromUri] promises settle. *)
Record ModelLoads := mkModelLoads {
  tinyFaceDetector : Js.Settled unit;
  faceLandmark68Net : Js.Settled unit;
  faceRecognitionNet : Js.Settled unit;
  faceExpressionNet : Js.Settled unit;
  ageGenderNet : Js.Settled unit
}.

Definition loadModels_promises (nets : ModelLoads) : list (Js.Settled unit) :=
  [ tinyFaceDetector nets;
    faceLandmark68Net nets;
    faceRecognitionNet nets;
    faceExpressionNet nets;
    ageGenderNet nets ].

(** The part of [loadModels] after [await Promise.all([...])]. *)
Definition loadModels_resume (nets : ModelLoads) (st : State) : State :=
  match Js.Promise_all (loadModels_promises nets) with
  | Js.Fulfilled _ =>
      log (console_log "Modelos cargados correctamente")
          (setIsModelLoaded true st)
  | Js.Rejected error =>
      log (console_error "Error al cargar los modelos:" error) st
  end.

(** ** detectFaces (lines 81-196) *)

(** How a call that may throw completes. *)
Inductive Completion (A : Type) :=
| Returns (a : A)
| Throws (error : string).

Arguments Returns {A} a.
Arguments Throws {A} error.

Definition Detections := list Detection.t.

Section Component.

(** [faceapi.resizeResults(detections, displaySize)]: the library's
    rescaling of the detections to the display size.  What it returns, or
    whether it throws, is the library's. *)
Variable resizeResults : Detections -> Dimensions -> Completion Detections.

(** Lines 121-192: clear the canvas and draw the detections. *)
Definition drawCycle (cl : Closure) (displaySize : Dimensions)
    (detections : Detections) (faceDataArray : list FaceData) : Paint :=
  ifCtx clearRect ;;
  match resizeResults detections displaySize with
  | Throws error => throw error
  | Returns resizedDetections =>
      helper DrawDetections resizedDetections ;;
      match c_displayMode cl with
      | mode_landmarks => helper DrawFaceLandmarks resizedDetections
      | mode_expressions => helper DrawFaceExpressions resizedDetections
      | mode_mesh => drawMesh resizedDetections
      end ;;
      if c_showDetails cl
      then drawDetails resizedDetections faceDataArray
      else skip
  end.

(** Lines 82-89: from the call to the [await].  A call that passes the
    guard of line 82 matches the canvas to the video and suspends. *)
Definition detectFaces_begin (cl : Closure) (st : State) : State * option Pending :=
  match video st with
  | None => (st, None)
  | Some video =>
      if negb (canvasRef st) || negb (c_isModelLoaded cl)
         || negb (c_detectionEnabled cl)
      then (st, None)
      else
        let displaySize := {| width := width video; height := height video |} in
        (set_canvas (matchDimensions (canvas st) displaySize) st,
         Some {| p_closure := cl; p_displaySize := displaySize |})
  end.

(** Lines 92-195: from the moment the awaited detection settles. *)
Definition detectFaces_resume (p : Pending) (settled : Js.Settled Detections)
    (st : State) : State :=
  match settled with
  | Js.Rejected error =>
      log (console_error "Error en la detección facial:" error) st
  | Js.Fulfilled detections =>
      let st := setFacesDetected (length detections) st in
      let faceDataArray := map toFaceData detections in
      let st := setFacesData faceDataArray st in
      let '(canvas', thrown) :=
        drawCycle (p_closure p) (p_displaySize p) detections faceDataArray
                  (canvas st) in
      let st := set_canvas canvas' st in
      match thrown with
      | Some error =>
          log (console_error "Error en la detección facial:" error) st
      | None => st
      end
  end.

(** One detection cycle with nothing happening in between: the call, and
    the detection settling as [settled]. *)
Definition detectFaces (cl : Closure) (settled : Js.Settled Detections)
    (st : State) : State :=
  match detectFaces_begin cl st with
  | (st', Some p) => detectFaces_resume p settled st'
  | (st', None) => st'
  end.

(** ** The interval effect (lines 210-222) *)

(** The dependency array
    [[isModelLoaded, detectionEnabled, displayMode, showDetails]] holds
    exactly what a closure captures. *)
Definition deps_eqb (a b : Closure) : bool :=
  Bool.eqb (c_isModelLoaded a) (c_isModelLoaded b)
  && Bool.eqb (c_detectionEnabled a) (c_detectionEnabled b)
  && DisplayMode_eqb (c_displayMode a) (c_displayMode b)
  && Bool.eqb (c_showDetails a) (c_showDetails b).

Definition intervalEffect (st : State) : State :=
  if isModelLoaded st && detectionEnabled st
  then setInterval_into_ref (closure st) st
  else clearCurrentInterval st.

Definition intervalCleanup (st : State) : State := clearCurrentInterval st.

(** A render after a state update: when a dependency changed, React runs
    the cleanup of the previous effect and then the effect again. *)
Definition render (before after : State) : State :=
  if deps_eqb (closure before) (closure after) then after
  else intervalEffect (intervalCleanup after).

(** ** The event loop *)

Inductive Event :=
| ModelsSettled (nets : ModelLoads)
| IntervalFires (id : positive)
| DetectionSettled (k : nat) (settled : Js.Settled Detections)
| ClickDetection
| SelectDisplayMode (mode : DisplayMode)
| ClickDetails.

Fixpoint remove_nth {A : Type} (k : nat) (l : list A) : list A :=
  match l, k with
  | [], _ => []
  | _ :: rest, O => rest
  | a :: rest, S k' => a :: remove_nth k' rest
  end.

(** An event that cannot happen in the state (an interval that is not
    armed, a detection that is not awaited, a second settlement of
    [loadModels]) leaves it as it is. *)
Definition step (st : State) (ev : Event) : State :=
  match ev with
  | ModelsSettled nets =>
      if loading st
      then render st (loadModels_resume nets (set_loading false st))
      else st
  | IntervalFires id =>
      match find (fun t => Pos.eqb (fst t) id) (timers st) with
      | Some (_, callback) =>
          match detectFaces_begin callback st with
          | (st', Some p) => set_inflight (inflight st' ++ [p]) st'
          | (st', None) => st'
          end
      | None => st
      end
  | DetectionSettled k settled =>
      match nth_error (inflight st) k with
      | Some p =>
          detectFaces_resume p settled
            (set_inflight (remove_nth k (inflight st)) st)
      | None => st
      end
  | ClickDetection =>
      render st (setDetectionEnabled (negb (detectionEnabled st)) st)
  | SelectDisplayMode mode => render st (setDisplayMode mode st)
  | ClickDetails => render st (setShowDetails (negb (showDetails st)) st)
  end.

Definition run (st : State) (events : list Event) : State :=
  fold_left step events st.

End Component.

Definition VIDEO_WIDTH : Z := 640.
Definition VIDEO_HEIGHT : Z := 360.

(** The component once mounted: the initial values of its state, the
    canvas at the size of the JSX, [loadModels] awaiting (first effect,
    lines 199-207), and no interval, since the second effect found the
    models not loaded. *)
Definition mounted (video : option Dimensions) (canvasRef context2d : bool) : State :=
  {| isModelLoaded := false;
     facesDetected := 0;
     detectionEnabled := true;
     facesData := [];
     displayMode := mode_landmarks;
     showDetails := true;
     detectionInterval := None;
     video := video;
     canvasRef := canvasRef;
     canvas := {| size := {| width := VIDEO_WIDTH; height := VIDEO_HEIGHT |};
                  context2d := context2d;
                  drawn := [] |};
     timers := [];
     nextTimer := 1;
     loading := true;
     inflight := [];
     console := [] |}.

(** * Part II: properties *)

(** ** Comparison and rounding *)

Lemma gt_iff (a b : Q) : Js.gt a b = true <-> b < a.
Proof.
  unfold Js.gt. rewrite negb_true_iff. split; intro H.
  - apply Qnot_le_lt. intro Hle. apply Qle_bool_iff in Hle. congruence.
  - destruct (Qle_bool a b) eqn:E; [|reflexivity].
    apply Qle_bool_iff in E. exfalso. exact (Qlt_not_le _ _ H E).
Qed.

Lemma gt_false_iff (a b : Q) : Js.gt a b = false <-> a <= b.
Proof.
  unfold Js.gt. rewrite negb_false_iff. apply Qle_bool_iff.
Qed.

Lemma Math_round_nearest (q : Q) :
  inject_Z (Js.Math_round q) - (1 # 2) <= q /\
  q < inject_Z (Js.Math_round q) + (1 # 2).
Proof.
  unfold Js.Math_round.
  pose proof (Qfloor_le (q + (1 # 2))) as Hlo.
  pose proof (Qlt_floor (q + (1 # 2))) as Hhi.
  rewrite inject_Z_plus in Hhi. change (inject_Z 1) with 1 in Hhi.
  split; lra.
Qed.

Lemma hundredths (n : Z) : n # 100 == inject_Z n * (1 # 100).
Proof. unfold Qeq, Qmult, inject_Z. cbn. lia. Qed.

Lemma toFixed2_two_decimals (q : Q) : exists n : Z, Js.toFixed2 q = n # 100.
Proof.
  unfold Js.toFixed2. destruct (Qle_bool 0 q); eexists; reflexivity.
Qed.

Lemma toFixed2_nearest (q : Q) : Qabs (Js.toFixed2 q - q) <= 1 # 200.
Proof.
  unfold Js.toFixed2. destruct (Qle_bool 0 q).
  - pose proof (Qfloor_le (q * 100 + (1 # 2))) as Hlo.
    pose proof (Qlt_floor (q * 100 + (1 # 2))) as Hhi.
    rewrite inject_Z_plus in Hhi. change (inject_Z 1) with 1 in Hhi.
    rewrite hundredths. apply Qabs_Qle_condition. split; lra.
  - pose proof (Qfloor_le (- q * 100 + (1 # 2))) as Hlo.
    pose proof (Qlt_floor (- q * 100 + (1 # 2))) as Hhi.
    rewrite inject_Z_plus in Hhi. change (inject_Z 1) with 1 in Hhi.
    rewrite hundredths, inject_Z_opp. apply Qabs_Qle_condition. split; lra.
Qed.

Lemma or_number_zero (a : Q) : Js.or_number (Some a) 0 == a.
Proof.
  unfold Js.or_number. destruct (Qeq_bool a 0) eqn:E; [|reflexivity].
  apply Qeq_bool_iff in E. symmetry. exact E.
Qed.

Example round_age_example : Js.Math_round (236 # 10) = 24%Z.
Proof. reflexivity. Qed.

Example round_probability_example :
  Js.toFixed2 (666667 # 1000000) = 67 # 100.
Proof. reflexivity. Qed.

(** ** The dominant expression *)

(** [k] is the key of the first entry of [e] that carries the greatest
    value: everything before it is strictly smaller, nothing after it is
    greater. *)
Definition first_maximum (e : FaceExpressions) (k : string) : Prop :=
  exists pre v post,
    e = pre ++ (k, v) :: post /\
    Forall (fun kv => snd kv < v) pre /\
    Forall (fun kv => snd kv <= v) post.

Example dominant_spec_example :
  getDominantExpression [("neutral", 1 # 10); ("happy", 7 # 10); ("sad", 2 # 10)]
  = "happy".
Proof. reflexivity. Qed.

Example dominant_full_tie :
  getDominantExpression [("neutral", 1 # 7); ("happy", 1 # 7); ("sad", 1 # 7)]
  = "neutral".
Proof. reflexivity. Qed.

Example dominant_all_zero :
  getDominantExpression [("neutral", 0); ("happy", 0); ("sad", 0)] = "".
Proof. reflexivity. Qed.

(** The loop, from any value of its two locals: either no entry exceeds
    [maxValue] and the locals are untouched, or they end on the first entry
    that carries the greatest value, which exceeds the initial [maxValue]. *)
Lemma dominant_fold (e : FaceExpressions) :
  forall m d,
    (Forall (fun kv => snd kv <= m) e /\ fold_left dominant_step e (m, d) = (m, d))
    \/
    (exists pre k v post,
        e = pre ++ (k, v) :: post /\ m < v /\
        Forall (fun kv => snd kv < v) pre /\
        Forall (fun kv => snd kv <= v) post /\
        fold_left dominant_step e (m, d) = (v, k)).
Proof.
  induction e as [|[k v] e IH]; intros m d.
  - left. split; [constructor | reflexivity].
  - cbn [fold_left dominant_step].
    destruct (Js.gt v m) eqn:Hgt.
    + apply gt_iff in Hgt. right.
      destruct (IH v k)
        as [[Hall Hres] | (pre & k' & v' & post & He & Hlt & Hpre & Hpost & Hres)].
      * exists [], k, v, e. split; [reflexivity|].
        split; [exact Hgt|]. split; [constructor|]. split; assumption.
      * exists ((k, v) :: pre), k', v', post. subst e.
        split; [reflexivity|].
        split; [eapply Qlt_trans; eassumption|].
        split; [constructor; assumption|]. split; assumption.
    + apply gt_false_iff in Hgt.
      destruct (IH m d)
        as [[Hall Hres] | (pre & k' & v' & post & He & Hlt & Hpre & Hpost & Hres)].
      * left. split; [constructor; assumption | assumption].
      * right. exists ((k, v) :: pre), k', v', post. subst e.
        split; [reflexivity|]. split; [assumption|].
        split; [|split; assumption].
        constructor; [|assumption]. cbn. eapply Qle_lt_trans; eassumption.
Qed.

(** C1: the dominant expression is the first entry, in iteration order, that
    carries the greatest probability, whenever some probability is positive;
    it is the empty label when every probability is zero. *)
Theorem getDominantExpression_first_maximum (e : FaceExpressions) :
  ((exists kv, In kv e /\ 0 < snd kv) ->
     first_maximum e (getDominantExpression e)) /\
  (Forall (fun kv => snd kv == 0) e -> getDominantExpression e = "").
Proof.
  unfold getDominantExpression.
  destruct (dominant_fold e 0 "")
    as [[Hall Hres] | (pre & k & v & post & He & Hlt & Hpre & Hpost & Hres)];
    rewrite Hres; cbn [snd]; split.
  - intros [kv [Hin Hpos]]. exfalso.
    rewrite Forall_forall in Hall. apply Hall in Hin.
    exact (Qlt_not_le _ _ Hpos Hin).
  - reflexivity.
  - intros _. exists pre, v, post. auto.
  - intros Hzero. exfalso.
    rewrite Forall_forall in Hzero.
    assert (Hin : In (k, v) e) by (subst e; apply in_elt).
    apply Hzero in Hin. cbn in Hin. rewrite Hin in Hlt.
    exact (Qlt_irrefl _ Hlt).
Qed.

Lemma getDominantExpression_first_maximum_witness :
  first_maximum [("neutral", 1 # 10); ("happy", 7 # 10); ("sad", 7 # 10)]
    (getDominantExpression [("neutral", 1 # 10); ("happy", 7 # 10); ("sad", 7 # 10)])
  /\ getDominantExpression [("neutral", 0); ("happy", 0)] = "".
Proof.
  split.
  - apply (getDominantExpression_first_maximum
             [("neutral", 1 # 10); ("happy", 7 # 10); ("sad", 7 # 10)]).
    exists ("happy", 7 # 10). split; [simpl; auto | reflexivity].
  - apply (getDominantExpression_first_maximum [("neutral", 0); ("happy", 0)]).
    repeat constructor.
Defined.

(** ** The published FaceData *)

(** A published probability [pub] is the raw one [raw] rounded to two
    decimals: same key, a whole number of hundredths, at most half a
    hundredth away. *)
Definition rounded_to_two_decimals (raw pub : string * Q) : Prop :=
  fst pub = fst raw /\
  (exists n : Z, snd pub = n # 100) /\
  Qabs (snd pub - snd raw) <= 1 # 200.

Lemma toFaceData_expressions (e : FaceExpressions) :
  Forall2 rounded_to_two_decimals e
          (map (fun '(key, value) => (key, Js.toFixed2 value)) e).
Proof.
  induction e as [|[k v] e IH]; cbn [map]; constructor; [|exact IH].
  split; [reflexivity|]. split; cbn [snd].
  - apply toFixed2_two_decimals.
  - apply toFixed2_nearest.
Qed.

(** C5: the published age is the integer nearest to the age estimate (a
    half rounds up), and every published probability is the raw one rounded
    to two decimals. *)
Theorem toFaceData_rounding (detection : Detection.t) (a : Q) :
  Detection.age detection = Some a ->
  (inject_Z (age (toFaceData detection)) - (1 # 2) <= a /\
   a < inject_Z (age (toFaceData detection)) + (1 # 2)) /\
  Forall2 rounded_to_two_decimals
          (Detection.expressions detection)
          (expressions (toFaceData detection)).
Proof.
  intros Hage. split.
  - unfold toFaceData. cbn [age]. rewrite Hage.
    pose proof (or_number_zero a) as Ha.
    pose proof (Math_round_nearest (Js.or_number (Some a) 0)) as [Hlo Hhi].
    rewrite Ha in Hlo at 2. rewrite Ha in Hhi at 1.
    split; assumption.
  - apply toFaceData_expressions.
Qed.

Definition rounding_example : Detection.t :=
  Detection.mk (mkBox 0 0 0 0) []
               [("happy", 666667 # 1000000)] (Some (236 # 10)) (Some "male").

Lemma toFaceData_rounding_witness :
  age (toFaceData rounding_example) = 24%Z /\
  expressions (toFaceData rounding_example) = [("happy", 67 # 100)] /\
  Forall2 rounded_to_two_decimals
          (Detection.expressions rounding_example)
          (expressions (toFaceData rounding_example)).
Proof.
  split; [reflexivity|]. split; [reflexivity|].
  apply (toFaceData_rounding rounding_example (236 # 10)). reflexivity.
Defined.

(** ** The emoji lookup *)

Example emoji_of_known_categories :
  map getExpressionEmoji
      ["neutral"; "happy"; "sad"; "angry"; "fearful"; "disgusted"; "surprised"]
  = map Js.VString ["😐"; "😀"; "😔"; "😠"; "😨"; "🤢"; "😲"].
Proof. reflexivity. Qed.

Example emoji_of_confused : getExpressionEmoji "confused" = Js.VString "❓".
Proof. reflexivity. Qed.

Lemma lookup_absent {A : Type} (k : string) (props : list (string * A)) :
  ~ In k (map fst props) -> Js.lookup k props = None.
Proof.
  induction props as [|[k' a] props IH]; intros Hnot; [reflexivity|].
  cbn [Js.lookup]. destruct (String.eqb_spec k k') as [->|Hne].
  - exfalso. apply Hnot. left. reflexivity.
  - apply IH. intros Hin. apply Hnot. right. exact Hin.
Qed.

(** The fallback is reached by every string that names neither a category
    nor a property of [Object.prototype]. *)
Lemma emoji_fallback (expression : string) :
  ~ In expression (map fst emojiMap) ->
  ~ In expression (map fst Js.Object_prototype) ->
  getExpressionEmoji expression = Js.VString "❓".
Proof.
  intros Hown Hproto. unfold getExpressionEmoji, Js.get.
  rewrite (lookup_absent _ _ Hown), (lookup_absent _ _ Hproto).
  reflexivity.
Qed.





(** ** The gender label *)

(** C10: the info panel on the canvas and the card of the details list show
    the same label for a published FaceData; it is "Hombre" exactly when
    the stored gender is "male" and "Mujer" for every other stored value,
    the "desconocido" stored for a missing gender included. *)
Theorem gender_label_shown (resized detection : Detection.t) (index : nat) :
  let face := toFaceData detection in
  exists label,
    nth_error (panel resized face) 4 =
      Some (FillText [TInteger (age face); TText " años, "; TText label]
                     (box_x (Detection.box resized) + 5)
                     (box_y (Detection.box resized) - 30)) /\
    card_gender (faceCard face index) = [TText "Género:"; TText label] /\
    (label = "Hombre" <-> gender face = "male") /\
    (gender face <> "male" -> label = "Mujer") /\
    (Detection.gender detection = None ->
       gender face = "desconocido" /\ label = "Mujer").
Proof.
  intros face.
  exists (if String.eqb (gender face) "male" then "Hombre" else "Mujer").
  split; [reflexivity|]. split; [reflexivity|].
  destruct (String.eqb_spec (gender face) "male") as [Heq|Hne].
  - split; [tauto|]. split; [congruence|].
    intros Hnone. exfalso. subst face. unfold toFaceData in Heq.
    cbn [gender] in Heq. rewrite Hnone in Heq. discriminate Heq.
  - split; [split; [discriminate | intros H; contradiction]|].
    split; [reflexivity|].
    intros Hnone. split; [|reflexivity].
    subst face. unfold toFaceData. cbn [gender]. rewrite Hnone. reflexivity.
Qed.

Definition unknown_gender_example : Detection.t :=
  Detection.mk (mkBox 10 60 100 100) [] [("happy", 7 # 10)] (Some 30) None.

Lemma gender_label_shown_witness :
  gender (toFaceData unknown_gender_example) = "desconocido" /\
  card_gender (faceCard (toFaceData unknown_gender_example) 0) =
    [TText "Género:"; TText "Mujer"].
Proof.
  destruct (gender_label_shown unknown_gender_example unknown_gender_example 0)
    as (label & _ & Hcard & _ & _ & Hnone).
  destruct (Hnone eq_refl) as [Hg Hl].
  split; [exact Hg|]. rewrite Hcard, Hl. reflexivity.
Defined.

(** ** Painting *)

(** [p] leaves the size and the context of the canvas alone and only adds
    commands that satisfy [P] to what is drawn. *)
Definition appends (P : DrawCmd -> Prop) (p : Paint) : Prop :=
  forall canvas, exists extra,
    fst (p canvas) =
      {| size := size canvas;
         context2d := context2d canvas;
         drawn := drawn canvas ++ extra |} /\
    Forall P extra.

Lemma appends_nothing (P : DrawCmd -> Prop) (canvas : Canvas) :
  exists extra,
    canvas =
      {| size := size canvas;
         context2d := context2d canvas;
         drawn := drawn canvas ++ extra |} /\
    Forall P extra.
Proof.
  exists []. split; [|constructor].
  destruct canvas; cbn. rewrite app_nil_r. reflexivity.
Qed.

Lemma appends_skip P : appends P skip.
Proof. intros canvas. apply appends_nothing. Qed.

Lemma appends_throw P error : appends P (throw error).
Proof. intros canvas. apply appends_nothing. Qed.

Lemma appends_issue (P : DrawCmd -> Prop) cmds :
  Forall P cmds -> appends P (issue cmds).
Proof. intros H canvas. exists cmds. split; [reflexivity | exact H]. Qed.

Lemma appends_andThen P p q :
  appends P p -> appends P q -> appends P (p ;; q).
Proof.
  intros Hp Hq canvas. unfold andThen.
  destruct (Hp canvas) as (e1 & H1 & F1).
  destruct (p canvas) as [canvas' [error|]]; cbn [fst] in H1.
  - exists e1. split; [exact H1 | exact F1].
  - destruct (Hq canvas') as (e2 & H2 & F2).
    exists (e1 ++ e2). split; [|apply Forall_app; split; assumption].
    rewrite H2, H1. cbn. rewrite app_assoc. reflexivity.
Qed.

Lemma appends_ifCtx P p : appends P p -> appends P (ifCtx p).
Proof.
  intros Hp canvas. unfold ifCtx.
  pose proof (Hp canvas) as Hdraw.
  pose proof (appends_skip P canvas) as Hskip.
  destruct (context2d canvas); [exact Hdraw | exact Hskip].
Qed.

Lemma appends_forEach {A : Type} P (f : A -> nat -> Paint) (l : list A) :
  (forall a idx, appends P (f a idx)) -> forall idx, appends P (forEach f l idx).
Proof.
  intros Hf. induction l as [|a l IH]; intros idx; cbn [forEach].
  - apply appends_skip.
  - apply appends_andThen; [apply Hf | apply IH].
Qed.

Definition no_edge (c : DrawCmd) : Prop := draws_edges c = false.

Lemma meshPoint_no_edge (point : Point) : Forall no_edge (meshPoint point).
Proof. repeat constructor. Qed.

Lemma meshFace_no_edge (face : Detection.t) : Forall no_edge (meshFace face).
Proof.
  unfold meshFace. apply Forall_app. split; [repeat constructor|].
  induction (Detection.positions face) as [|point points IH]; cbn [flat_map].
  - constructor.
  - apply Forall_app. split; [apply meshPoint_no_edge | exact IH].
Qed.

Lemma mesh_no_edge (faces : Detections) : Forall no_edge (flat_map meshFace faces).
Proof.
  induction faces as [|face faces IH]; cbn [flat_map]; [constructor|].
  apply Forall_app. split; [apply meshFace_no_edge | exact IH].
Qed.

Lemma panel_no_edge detection faceData : Forall no_edge (panel detection faceData).
Proof. repeat constructor. Qed.

Lemma drawDetails_no_edge resized faceDataArray :
  appends no_edge (drawDetails resized faceDataArray).
Proof.
  unfold drawDetails. apply appends_forEach. intros detection idx.
  apply appends_ifCtx.
  destruct (nth_error faceDataArray idx).
  - apply appends_issue, panel_no_edge.
  - apply appends_throw.
Qed.

(** With a 2d context the mesh branch throws nothing and draws the mesh of
    every face, in order. *)
Lemma drawMesh_draws (faces : Detections) :
  forall idx canvas,
    context2d canvas = true ->
    forEach (fun detection _ => ifCtx (issue (meshFace detection))) faces idx canvas
    = ({| size := size canvas;
          context2d := context2d canvas;
          drawn := drawn canvas ++ flat_map meshFace faces |}, None).
Proof.
  induction faces as [|face faces IH]; intros idx canvas Hctx; cbn [forEach flat_map].
  - unfold skip. rewrite app_nil_r. destruct canvas; reflexivity.
  - unfold andThen, ifCtx at 1. rewrite Hctx. unfold issue at 1.
    rewrite IH by exact Hctx. cbn [size context2d drawn].
    rewrite Hctx, <- app_assoc. reflexivity.
Qed.

Lemma flat_map_member {A B : Type} (f : A -> list B) (a : A) (l : list A) :
  In a l -> exists before after, flat_map f l = before ++ f a ++ after.
Proof.
  intros Hin. apply in_split in Hin. destruct Hin as (l1 & l2 & ->).
  exists (flat_map f l1), (flat_map f l2).
  rewrite flat_map_app. reflexivity.
Qed.

(** ** The detection cycle *)

Section ComponentProperties.

Variable resizeResults : Detections -> Dimensions -> Completion Detections.

(** In mesh mode, on a canvas with a 2d context, the cycle draws the boxes,
    then the mesh of every face, then the details; the details add no
    edge. *)
Lemma drawCycle_mesh (cl : Closure) (displaySize : Dimensions)
    (detections resized : Detections) (faceDataArray : list FaceData)
    (canvas : Canvas) :
  c_displayMode cl = mode_mesh ->
  context2d canvas = true ->
  resizeResults detections displaySize = Returns resized ->
  exists details,
    drawn (fst (drawCycle resizeResults cl displaySize detections
                          faceDataArray canvas))
    = DrawDetections resized :: flat_map meshFace resized ++ details /\
    Forall no_edge details.
Proof.
  intros Hmode Hctx Hres.
  destruct canvas as [sz ctx dr]. cbn in Hctx. subst ctx.
  unfold drawCycle. rewrite Hres, Hmode.
  unfold andThen at 1. unfold ifCtx at 1, clearRect. cbn [context2d size].
  unfold andThen at 1. unfold helper at 1. cbn [context2d]. unfold issue at 1.
  cbn [size context2d drawn app].
  unfold andThen at 1. unfold drawMesh.
  rewrite drawMesh_draws by reflexivity. cbn [size context2d drawn app].
  destruct (c_showDetails cl).
  - destruct (drawDetails_no_edge resized faceDataArray
                {| size := sz; context2d := true;
                   drawn := DrawDetections resized :: flat_map meshFace resized |})
      as (details & Hd & Hno).
    exists details. rewrite Hd. split; [reflexivity | exact Hno].
  - exists []. cbn. rewrite app_nil_r. split; [reflexivity | constructor].
Qed.

(** C7: in point-mesh mode every landmark point of every face is drawn as
    a filled circle of radius 2 in the colour #36f, and nothing the cycle
    draws joins two points by an edge. *)
Theorem mesh_mode_draws_points_only (cl : Closure) (displaySize : Dimensions)
    (detections resized : Detections) (faceDataArray : list FaceData)
    (canvas : Canvas) :
  c_displayMode cl = mode_mesh ->
  context2d canvas = true ->
  resizeResults detections displaySize = Returns resized ->
  let after :=
    fst (drawCycle resizeResults cl displaySize detections faceDataArray canvas) in
  (forall face point,
      In face resized -> In point (Detection.positions face) ->
      exists before rest,
        drawn after =
          before
          ++ [ BeginPath;
               Arc (x point) (y point) 2 (Radians 0) (TimesPI 2);
               SetFillStyle "#36f";
               Fill ]
          ++ rest) /\
  Forall (fun c => draws_edges c = false) (drawn after).
Proof.
  intros Hmode Hctx Hres after.
  destruct (drawCycle_mesh cl displaySize detections resized faceDataArray
              canvas Hmode Hctx Hres) as (details & Hdrawn & Hno).
  fold after in Hdrawn. split.
  - intros face point Hface Hpoint.
    destruct (flat_map_member meshFace face resized Hface) as (b1 & a1 & H1).
    destruct (flat_map_member meshPoint point (Detection.positions face) Hpoint)
      as (b2 & a2 & H2).
    exists (DrawDetections resized :: b1
            ++ [SetStrokeStyle "#36f"; SetLineWidth 1] ++ b2),
           (a2 ++ a1 ++ details).
    rewrite Hdrawn, H1. unfold meshFace at 1. rewrite H2.
    unfold meshPoint.
    repeat first [rewrite <- app_assoc | rewrite <- app_comm_cons].
    reflexivity.
  - rewrite Hdrawn. constructor; [reflexivity|].
    apply Forall_app. split; [apply mesh_no_edge | exact Hno].
Qed.

(** The guard of line 82, as a proposition. *)
Definition guard_fails (cl : Closure) (st : State) : Prop :=
  video st = None \/ canvasRef st = false \/
  c_isModelLoaded cl = false \/ c_detectionEnabled cl = false.

Lemma detectFaces_begin_guarded (cl : Closure) (st : State) :
  guard_fails cl st -> detectFaces_begin cl st = (st, None).
Proof.
  unfold guard_fails, detectFaces_begin. intros H.
  destruct (video st) as [v|]; [|reflexivity].
  destruct H as [H|[H|[H|H]]]; [discriminate H| | |];
    rewrite H; cbn; rewrite ?orb_true_r; reflexivity.
Qed.

Lemma detectFaces_begin_passes (cl : Closure) (st : State) (v : Dimensions) :
  video st = Some v -> canvasRef st = true ->
  c_isModelLoaded cl = true -> c_detectionEnabled cl = true ->
  detectFaces_begin cl st =
    (set_canvas (matchDimensions (canvas st) v) st,
     Some {| p_closure := cl; p_displaySize := v |}).
Proof.
  intros Hv Hc Hl He. unfold detectFaces_begin. rewrite Hv, Hc, Hl, He.
  destruct v; reflexivity.
Qed.

(** C4: a call of [detectFaces] that fails the guard (no video element, no
    canvas, models not loaded, or detection disabled) returns at once: the
    whole state, console included, is what it was, and an interval that
    fires with such a callback changes nothing either. *)
Theorem detectFaces_guard_is_noop (cl : Closure)
    (settled : Js.Settled Detections) (st : State) :
  guard_fails cl st ->
  detectFaces_begin cl st = (st, None) /\
  detectFaces resizeResults cl settled st = st /\
  (forall id,
      find (fun t => Pos.eqb (fst t) id) (timers st) = Some (id, cl) ->
      step resizeResults st (IntervalFires id) = st).
Proof.
  intros H. pose proof (detectFaces_begin_guarded cl st H) as Hb.
  split; [exact Hb|]. split.
  - unfold detectFaces. rewrite Hb. reflexivity.
  - intros id Hfind. cbn [step]. rewrite Hfind, Hb. reflexivity.
Qed.

(** What the continuation publishes when the detection is fulfilled. *)
Lemma detectFaces_resume_publishes (p : Pending) (detections : Detections)
    (st : State) :
  let st' := detectFaces_resume resizeResults p (Js.Fulfilled detections) st in
  facesDetected st' = length detections /\
  facesData st' = map toFaceData detections.
Proof.
  cbn zeta. unfold detectFaces_resume.
  destruct (drawCycle _ _ _ _ _ _) as [canvas' [error|]];
    destruct st; cbn; split; reflexivity.
Qed.

(** What the continuation does when the detection is rejected: it logs,
    and nothing else. *)
Lemma detectFaces_resume_rejected (p : Pending) (error : string) (st : State) :
  detectFaces_resume resizeResults p (Js.Rejected error) st
  = log (console_error "Error en la detección facial:" error) st.
Proof. reflexivity. Qed.

(** C3: a cycle whose detection is fulfilled publishes one FaceData per
    detection, in order, and the count of the detections; both are computed
    from this cycle's detections alone.  This holds for a cycle that runs
    without interruption and for the continuation of any awaiting cycle. *)
Theorem successful_cycle_publishes (cl : Closure) (detections : Detections)
    (st : State) (v : Dimensions) :
  video st = Some v -> canvasRef st = true ->
  c_isModelLoaded cl = true -> c_detectionEnabled cl = true ->
  let st' := detectFaces resizeResults cl (Js.Fulfilled detections) st in
  (length (facesData st') = length detections /\
   facesDetected st' = length detections /\
   facesData st' = map toFaceData detections) /\
  (forall k p,
      nth_error (inflight st) k = Some p ->
      let st'' :=
        step resizeResults st (DetectionSettled k (Js.Fulfilled detections)) in
      length (facesData st'') = length detections /\
      facesDetected st'' = length detections /\
      facesData st'' = map toFaceData detections).
Proof.
  intros Hv Hc Hl He st'. subst st'. split.
  - unfold detectFaces.
    rewrite (detectFaces_begin_passes cl st v Hv Hc Hl He).
    destruct (detectFaces_resume_publishes
                {| p_closure := cl; p_displaySize := v |} detections
                (set_canvas (matchDimensions (canvas st) v) st)) as [Hn Hd].
    rewrite Hn, Hd, length_map. repeat split; reflexivity.
  - intros k p Hk st''. subst st''. cbn [step]. rewrite Hk.
    destruct (detectFaces_resume_publishes p detections
                (set_inflight (remove_nth k (inflight st)) st)) as [Hn Hd].
    rewrite Hn, Hd, length_map. repeat split; reflexivity.
Qed.

(** C2, as the code has it: the failure of a detection changes nothing
    but the console.  A cycle whose detection is rejected leaves the
    published count and collection, hence the details list, as they were.
    The overlay is another matter: a call that passes the guard blanks the
    canvas at once, by matching it to the video before the detection is
    awaited, so a cycle that starts and fails with nothing in between logs
    the error and leaves the canvas blank; and the continuation of an
    awaiting cycle whose detection is rejected logs the error and leaves
    the count, the collection and the canvas as they are at that
    moment. *)
Theorem failed_cycle_keeps_data (cl : Closure) (error : string) (st : State) :
  let st' := detectFaces resizeResults cl (Js.Rejected error) st in
  facesDetected st' = facesDetected st /\
  facesData st' = facesData st /\
  detailsList (facesData st') = detailsList (facesData st) /\
  (forall v,
      video st = Some v -> canvasRef st = true ->
      c_isModelLoaded cl = true -> c_detectionEnabled cl = true ->
      drawn (canvas (fst (detectFaces_begin cl st))) = [] /\
      console st' =
        console st ++ [console_error "Error en la detección facial:" error] /\
      drawn (canvas st') = []) /\
  (forall k p,
      nth_error (inflight st) k = Some p ->
      let st'' :=
        step resizeResults st (DetectionSettled k (Js.Rejected error)) in
      facesDetected st'' = facesDetected st /\
      facesData st'' = facesData st /\
      canvas st'' = canvas st /\
      console st'' =
        console st ++ [console_error "Error en la detección facial:" error]).
Proof.
  cbn zeta.
  assert (Hdata :
    facesDetected (detectFaces resizeResults cl (Js.Rejected error) st)
      = facesDetected st /\
    facesData (detectFaces resizeResults cl (Js.Rejected error) st)
      = facesData st).
  { unfold detectFaces, detectFaces_begin.
    destruct (video st) as [v|]; [|split; reflexivity].
    destruct (negb (canvasRef st) || negb (c_isModelLoaded cl)
              || negb (c_detectionEnabled cl)); [split; reflexivity|].
    destruct st; cbn. split; reflexivity. }
  destruct Hdata as [Hn Hd].
  split; [exact Hn|]. split; [exact Hd|]. split; [rewrite Hd; reflexivity|].
  split.
  - intros v Hv Hc Hl He. unfold detectFaces.
    rewrite (detectFaces_begin_passes cl st v Hv Hc Hl He).
    rewrite detectFaces_resume_rejected.
    destruct st; cbn. repeat split; reflexivity.
  - intros k p Hk. cbn [step]. rewrite Hk, detectFaces_resume_rejected.
    destruct st; cbn. repeat split; reflexivity.
Qed.

(** ** Frames: what the pieces of the component leave alone *)

Lemma detectFaces_resume_frame (p : Pending) (settled : Js.Settled Detections)
    (st : State) :
  let st' := detectFaces_resume resizeResults p settled st in
  isModelLoaded st' = isModelLoaded st /\
  detectionEnabled st' = detectionEnabled st /\
  timers st' = timers st /\
  detectionInterval st' = detectionInterval st /\
  inflight st' = inflight st /\
  loading st' = loading st.
Proof.
  cbn zeta. unfold detectFaces_resume. destruct settled as [detections|error].
  - destruct (drawCycle _ _ _ _ _ _) as [canvas' [error|]];
      destruct st; cbn; repeat split; reflexivity.
  - destruct st; cbn; repeat split; reflexivity.
Qed.

Lemma clearCurrentInterval_idle (st : State) :
  timers st = [] -> clearCurrentInterval st = st.
Proof.
  intros H. destruct st. cbn in H. subst. unfold clearCurrentInterval.
  cbn. destruct detectionInterval0; reflexivity.
Qed.

(** With no interval armed and nothing to arm, a render changes nothing. *)
Lemma render_idle (before after : State) :
  timers after = [] ->
  isModelLoaded after && detectionEnabled after = false ->
  render before after = after.
Proof.
  intros Ht Hoff. unfold render, intervalEffect, intervalCleanup.
  destruct (deps_eqb (closure before) (closure after)); [reflexivity|].
  rewrite (clearCurrentInterval_idle after Ht), Hoff.
  apply clearCurrentInterval_idle, Ht.
Qed.

Lemma interval_not_armed (st : State) (id : positive) :
  timers st = [] -> step resizeResults st (IntervalFires id) = st.
Proof. intros H. cbn [step]. rewrite H. reflexivity. Qed.

Lemma remove_nth_length {A : Type} (l : list A) :
  forall k, (length (remove_nth k l) <= length l)%nat.
Proof.
  induction l as [|a l IH]; intros k; [destruct k; cbn; lia|].
  destruct k as [|k]; cbn; [lia|]. specialize (IH k). lia.
Qed.

(** ** Model readiness *)

Definition is_fulfilled {A : Type} (s : Js.Settled A) : bool :=
  match s with
  | Js.Fulfilled _ => true
  | Js.Rejected _ => false
  end.

(** The detector, landmark, recognition, expression and age/gender models
    are all loaded. *)
Definition all_five_loaded (nets : ModelLoads) : bool :=
  is_fulfilled (tinyFaceDetector nets)
  && is_fulfilled (faceLandmark68Net nets)
  && is_fulfilled (faceRecognitionNet nets)
  && is_fulfilled (faceExpressionNet nets)
  && is_fulfilled (ageGenderNet nets).

Lemma loadModels_resume_loaded (nets : ModelLoads) (st : State) :
  all_five_loaded nets = true ->
  loadModels_resume nets st
  = log (console_log "Modelos cargados correctamente") (setIsModelLoaded true st).
Proof.
  destruct nets as [[?|?] [?|?] [?|?] [?|?] [?|?]]; cbn;
    intros H; try discriminate H; reflexivity.
Qed.

Lemma loadModels_resume_failed (nets : ModelLoads) (st : State) :
  all_five_loaded nets = false ->
  exists error,
    loadModels_resume nets st
    = log (console_error "Error al cargar los modelos:" error) st.
Proof.
  destruct nets as [[?|e1] [?|e2] [?|e3] [?|e4] [?|e5]]; cbn;
    intros H; try discriminate H; eexists; reflexivity.
Qed.

(** The component while the models are not loaded: no interval, no cycle
    awaiting, nothing published, nothing drawn. *)
Definition NotReady (st : State) : Prop :=
  isModelLoaded st = false /\
  timers st = [] /\
  inflight st = [] /\
  facesDetected st = 0%nat /\
  facesData st = [] /\
  drawn (canvas st) = [].

(** [ev] does not report five successful loads. *)
Definition not_a_success (ev : Event) : Prop :=
  forall nets, ev = ModelsSettled nets -> all_five_loaded nets = false.

Lemma NotReady_update (f : State -> State) (st : State) :
  NotReady st ->
  (forall s, isModelLoaded (f s) = isModelLoaded s /\ timers (f s) = timers s /\
             inflight (f s) = inflight s /\ facesDetected (f s) = facesDetected s /\
             facesData (f s) = facesData s /\ canvas (f s) = canvas s) ->
  NotReady (f st).
Proof.
  intros (H1 & H2 & H3 & H4 & H5 & H6) Hf.
  destruct (Hf st) as (F1 & F2 & F3 & F4 & F5 & F6).
  unfold NotReady. rewrite F1, F2, F3, F4, F5, F6. repeat split; assumption.
Qed.

(** While the models are not loaded, an event either is the failed
    settlement of [loadModels], which only logs the error, or leaves the
    console and the pending load as they are; the component stays not
    ready either way.  Once [loadModels] has settled, a later settlement
    is not an event of the component any more. *)
Lemma step_NotReady (st : State) (ev : Event) :
  NotReady st -> (loading st = true -> not_a_success ev) ->
  NotReady (step resizeResults st ev) /\
  ((exists nets error,
       ev = ModelsSettled nets /\ loading st = true /\
       loading (step resizeResults st ev) = false /\
       console (step resizeResults st ev)
       = console st ++ [console_error "Error al cargar los modelos:" error])
   \/
   (loading (step resizeResults st ev) = loading st /\
    console (step resizeResults st ev) = console st /\
    (forall nets, ev = ModelsSettled nets -> loading st = false))).
Proof.
  intros HN Hev. pose proof HN as (Hl & Ht & Hi & Hn & Hd & Hc).
  destruct ev as [nets|id|k settled| |mode|]; cbn [step].
  - destruct (loading st) eqn:Hload.
    + destruct (loadModels_resume_failed nets (set_loading false st)
                  (Hev eq_refl nets eq_refl)) as (error & Hres).
      rewrite Hres. rewrite render_idle.
      * split.
        -- apply (NotReady_update
                    (fun s => log (console_error "Error al cargar los modelos:" error)
                                  (set_loading false s))); [exact HN|].
           intros s. destruct s; cbn. repeat split; reflexivity.
        -- left. exists nets, error.
           destruct st; cbn. repeat split; reflexivity.
      * destruct st; cbn in *. exact Ht.
      * destruct st; cbn in *. rewrite Hl. reflexivity.
    + split; [exact HN|]. right. repeat split; try reflexivity.
      intros; exact Hload.
  - rewrite Ht. cbn. split; [exact HN|]. right.
    repeat split; try reflexivity. intros nets H; discriminate H.
  - rewrite Hi. destruct k; cbn; (split; [exact HN|]); right;
      repeat split; try reflexivity; intros nets H; discriminate H.
  - rewrite render_idle.
    + split.
      * apply (NotReady_update
                 (fun s => setDetectionEnabled (negb (detectionEnabled st)) s));
          [exact HN|].
        intros s. destruct s; cbn. repeat split; reflexivity.
      * right. destruct st; cbn. repeat split; try reflexivity.
        intros nets H; discriminate H.
    + destruct st; cbn in *. exact Ht.
    + destruct st; cbn in *. rewrite Hl. reflexivity.
  - rewrite render_idle.
    + split.
      * apply (NotReady_update (fun s => setDisplayMode mode s)); [exact HN|].
        intros s. destruct s; cbn. repeat split; reflexivity.
      * right. destruct st; cbn. repeat split; try reflexivity.
        intros nets H; discriminate H.
    + destruct st; cbn in *. exact Ht.
    + destruct st; cbn in *. rewrite Hl. reflexivity.
  - rewrite render_idle.
    + split.
      * apply (NotReady_update
                 (fun s => setShowDetails (negb (showDetails st)) s));
          [exact HN|].
        intros s. destruct s; cbn. repeat split; reflexivity.
      * right. destruct st; cbn. repeat split; try reflexivity.
        intros nets H; discriminate H.
    + destruct st; cbn in *. exact Ht.
    + destruct st; cbn in *. rewrite Hl. reflexivity.
Qed.

Lemma run_NotReady (events : list Event) :
  forall st,
    NotReady st -> Forall not_a_success events ->
    NotReady (run resizeResults st events).
Proof.
  induction events as [|ev events IH]; intros st HN Hall; [exact HN|].
  inversion Hall as [|? ? Hev Hrest]; subst. cbn [run fold_left].
  apply IH; [|exact Hrest].
  apply step_NotReady; [exact HN | intros _; exact Hev].
Qed.

(** Before [loadModels] settles. *)
Lemma run_while_loading (events : list Event) :
  forall st,
    NotReady st ->
    Forall (fun ev => forall nets, ev <> ModelsSettled nets) events ->
    NotReady (run resizeResults st events) /\
    loading (run resizeResults st events) = loading st.
Proof.
  induction events as [|ev events IH]; intros st HN Hall; [split; [exact HN | reflexivity]|].
  inversion Hall as [|? ? Hev Hrest]; subst. cbn [run fold_left].
  assert (Hns : loading st = true -> not_a_success ev).
  { intros _ nets Heq. exfalso. exact (Hev nets Heq). }
  destruct (step_NotReady st ev HN Hns) as [HN' [(nets & error & Heq & _)|(Hl & _ & _)]].
  - exfalso. exact (Hev nets Heq).
  - destruct (IH _ HN' Hrest) as [HN'' Hl'']. split; [exact HN''|].
    unfold run in Hl''. rewrite Hl''. exact Hl.
Qed.

(** After [loadModels] has failed. *)
Lemma run_after_failure (events : list Event) :
  forall st,
    NotReady st -> loading st = false ->
    NotReady (run resizeResults st events) /\
    console (run resizeResults st events) = console st.
Proof.
  induction events as [|ev events IH]; intros st HN Hload; [split; [exact HN | reflexivity]|].
  cbn [run fold_left].
  assert (Hns : loading st = true -> not_a_success ev).
  { intros Htrue. rewrite Hload in Htrue. discriminate Htrue. }
  destruct (step_NotReady st ev HN Hns)
    as [HN' [(nets & error & _ & Htrue & _)|(Hl & Hc & _)]].
  - rewrite Hload in Htrue. discriminate Htrue.
  - rewrite Hload in Hl. destruct (IH _ HN' Hl) as [HN'' Hc''].
    split; [exact HN''|]. unfold run in Hc''. rewrite Hc''. exact Hc.
Qed.

Lemma success_or_not (events : list Event) :
  (exists nets, In (ModelsSettled nets) events /\ all_five_loaded nets = true)
  \/ Forall not_a_success events.
Proof.
  induction events as [|ev events [(nets & Hin & Hok)|Hall]].
  - right. constructor.
  - left. exists nets. split; [right; exact Hin | exact Hok].
  - destruct ev as [nets|id|k settled| |mode|];
      try (right; constructor; [intros n H; discriminate H | exact Hall]).
    destruct (all_five_loaded nets) eqn:Hok.
    + left. exists nets. split; [left; reflexivity | exact Hok].
    + right. constructor; [|exact Hall].
      intros n H. injection H as <-. exact Hok.
Qed.

Lemma mounted_NotReady video0 canvasRef0 context2d0 :
  NotReady (mounted video0 canvasRef0 context2d0).
Proof. repeat split; reflexivity. Qed.

(** C8: the models are ready only after a settlement of [loadModels] in
    which all five loads were fulfilled; when a load fails, the error is
    logged and, whatever happens afterwards, the models stay not ready, no
    interval is armed, no cycle is awaiting, a firing interval does
    nothing, and nothing is published or drawn. *)
Theorem readiness_needs_all_five_models (video0 : option Dimensions)
    (canvasRef0 context2d0 : bool) :
  let start := mounted video0 canvasRef0 context2d0 in
  (forall events,
      isModelLoaded (run resizeResults start events) = true ->
      exists nets,
        In (ModelsSettled nets) events /\ all_five_loaded nets = true) /\
  (forall before nets after,
      Forall (fun ev => forall n, ev <> ModelsSettled n) before ->
      all_five_loaded nets = false ->
      let st := run resizeResults start (before ++ ModelsSettled nets :: after) in
      (exists error,
          In (console_error "Error al cargar los modelos:" error) (console st)) /\
      isModelLoaded st = false /\
      timers st = [] /\
      inflight st = [] /\
      (forall id, step resizeResults st (IntervalFires id) = st) /\
      facesDetected st = 0%nat /\
      facesData st = [] /\
      drawn (canvas st) = []).
Proof.
  intros start. split.
  - intros events Hloaded.
    destruct (success_or_not events) as [Hyes|Hno]; [exact Hyes|].
    pose proof (run_NotReady events start
                  (mounted_NotReady video0 canvasRef0 context2d0) Hno)
      as (Hl & _).
    rewrite Hl in Hloaded. discriminate Hloaded.
  - intros before nets after Hbefore Hfail st.
    destruct (run_while_loading before start
                (mounted_NotReady video0 canvasRef0 context2d0) Hbefore)
      as [HN1 Hload1].
    assert (Hns : loading (run resizeResults start before) = true ->
                  not_a_success (ModelsSettled nets)).
    { intros _ n H. injection H as <-. exact Hfail. }
    destruct (step_NotReady _ (ModelsSettled nets) HN1 Hns)
      as [HN2 [(n & error & _ & _ & Hload2 & Hcons2)|(_ & _ & Hfalse)]].
    + destruct (run_after_failure after _ HN2 Hload2) as [HN3 Hcons3].
      assert (Hst : run resizeResults start (before ++ ModelsSettled nets :: after)
                    = run resizeResults
                          (step resizeResults (run resizeResults start before)
                                (ModelsSettled nets)) after).
      { unfold run. rewrite fold_left_app. reflexivity. }
      subst st. rewrite Hst. destruct HN3 as (H1 & H2 & H3 & H4 & H5 & H6).
      split.
      * exists error. rewrite Hcons3, Hcons2. apply in_or_app. right. left.
        reflexivity.
      * repeat split; try assumption.
        intros id. apply interval_not_armed, H2.
    + specialize (Hfalse nets eq_refl). rewrite Hload1 in Hfalse.
      discriminate Hfalse.
Qed.

(** ** The interval *)

(** Every interval that is armed is the one [detectionInterval.current]
    names. *)
Definition Armed (st : State) : Prop :=
  forall t, In t (timers st) -> detectionInterval st = Some (fst t).

Definition without_timers (st : State) : State :=
  let 'mkState a b c d e f g h i j _ l m n o := st in
  mkState a b c d e f g h i j [] l m n o.

Lemma clearCurrentInterval_armed (st : State) :
  Armed st -> clearCurrentInterval st = without_timers st.
Proof.
  unfold Armed. destruct st as [a b c d e f g h i j k l m n o]. cbn.
  intros H. unfold clearCurrentInterval. cbn.
  destruct g as [id|].
  - cbn. f_equal. induction k as [|t k IH]; [reflexivity|].
    cbn [filter]. pose proof (H t (or_introl eq_refl)) as Ht.
    injection Ht as Ht. rewrite <- Ht, Pos.eqb_refl. cbn [negb].
    apply IH. intros t' Hin. apply H. right. exact Hin.
  - destruct k as [|t k]; [reflexivity|].
    specialize (H t (or_introl eq_refl)). discriminate H.
Qed.

Lemma Armed_update (f : State -> State) (st : State) :
  Armed st ->
  timers (f st) = timers st ->
  detectionInterval (f st) = detectionInterval st ->
  Armed (f st).
Proof.
  unfold Armed. intros H Ht Hr t Hin. rewrite Ht in Hin. rewrite Hr.
  apply H, Hin.
Qed.

Lemma render_Armed (before after : State) :
  Armed after -> Armed (render before after).
Proof.
  intros H. unfold render.
  destruct (deps_eqb (closure before) (closure after)); [exact H|].
  unfold intervalEffect, intervalCleanup.
  rewrite (clearCurrentInterval_armed after H).
  destruct after as [a b c d e f g h i j k l m n o]. cbn.
  destruct (a && c).
  - intros t [<-|[]]. reflexivity.
  - unfold clearCurrentInterval. cbn. destruct g; intros t [].
Qed.

Lemma loadModels_resume_frame (nets : ModelLoads) (st : State) :
  let st' := loadModels_resume nets st in
  detectionEnabled st' = detectionEnabled st /\
  timers st' = timers st /\
  detectionInterval st' = detectionInterval st /\
  inflight st' = inflight st /\
  facesDetected st' = facesDetected st /\
  facesData st' = facesData st.
Proof.
  cbn zeta. unfold loadModels_resume.
  destruct (Js.Promise_all (loadModels_promises nets));
    destruct st; cbn; repeat split; reflexivity.
Qed.

Lemma detectFaces_begin_frame (cl : Closure) (st : State) :
  let st' := fst (detectFaces_begin cl st) in
  detectionEnabled st' = detectionEnabled st /\
  timers st' = timers st /\
  detectionInterval st' = detectionInterval st /\
  inflight st' = inflight st.
Proof.
  cbn zeta. unfold detectFaces_begin.
  destruct (video st); [|repeat split; reflexivity].
  destruct (negb (canvasRef st) || negb (c_isModelLoaded cl)
            || negb (c_detectionEnabled cl)); [repeat split; reflexivity|].
  destruct st; cbn; repeat split; reflexivity.
Qed.

Lemma step_Armed (st : State) (ev : Event) :
  Armed st -> Armed (step resizeResults st ev).
Proof.
  intros H. destruct ev as [nets|id|k settled| |mode|]; cbn [step].
  - destruct (loading st); [|exact H]. apply render_Armed.
    destruct (loadModels_resume_frame nets (set_loading false st))
      as (_ & Ht & Hr & _).
    intros t Hin. rewrite Ht in Hin. rewrite Hr.
    destruct st; cbn in *. apply H, Hin.
  - destruct (find _ (timers st)) as [[id' callback]|]; [|exact H].
    pose proof (detectFaces_begin_frame callback st) as (_ & Ht & Hr & _).
    destruct (detectFaces_begin callback st) as [st' [p|]]; cbn [fst] in *.
    + intros t Hin.
      assert (Hin' : In t (timers st')) by (destruct st'; exact Hin).
      rewrite Ht in Hin'. specialize (H t Hin'). rewrite <- Hr in H.
      destruct st'; exact H.
    + intros t Hin. rewrite Ht in Hin. rewrite Hr. apply H, Hin.
  - destruct (nth_error (inflight st) k) as [p|]; [|exact H].
    destruct (detectFaces_resume_frame p settled
                (set_inflight (remove_nth k (inflight st)) st))
      as (_ & _ & Ht & Hr & _).
    intros t Hin. rewrite Ht in Hin. rewrite Hr.
    destruct st; cbn in *. apply H, Hin.
  - apply render_Armed.
    apply (Armed_update (setDetectionEnabled (negb (detectionEnabled st))));
      [exact H | destruct st; reflexivity | destruct st; reflexivity].
  - apply render_Armed.
    apply (Armed_update (setDisplayMode mode));
      [exact H | destruct st; reflexivity | destruct st; reflexivity].
  - apply render_Armed.
    apply (Armed_update (setShowDetails (negb (showDetails st))));
      [exact H | destruct st; reflexivity | destruct st; reflexivity].
Qed.

Lemma run_Armed (events : list Event) :
  forall st, Armed st -> Armed (run resizeResults st events).
Proof.
  induction events as [|ev events IH]; intros st H; [exact H|].
  cbn [run fold_left]. apply IH, step_Armed, H.
Qed.

(** Pausing: the click clears the interval and changes nothing else but
    the flag. *)
Lemma pause_click (st : State) :
  Armed st -> detectionEnabled st = true ->
  step resizeResults st ClickDetection
  = without_timers (setDetectionEnabled false st).
Proof.
  intros H Hon. cbn [step]. rewrite Hon. cbn [negb]. unfold render.
  assert (Hdeps : deps_eqb (closure st) (closure (setDetectionEnabled false st))
                  = false).
  { destruct st; cbn in *. subst. unfold deps_eqb. cbn.
    rewrite andb_false_r. reflexivity. }
  rewrite Hdeps. unfold intervalEffect, intervalCleanup.
  assert (Ha : Armed (setDetectionEnabled false st)).
  { apply (Armed_update (setDetectionEnabled false));
      [exact H | destruct st; reflexivity | destruct st; reflexivity]. }
  rewrite (clearCurrentInterval_armed _ Ha).
  assert (Hoff : isModelLoaded (without_timers (setDetectionEnabled false st))
                 && detectionEnabled (without_timers (setDetectionEnabled false st))
                 = false).
  { destruct st; cbn. apply andb_false_r. }
  rewrite Hoff. apply clearCurrentInterval_idle. destruct st; reflexivity.
Qed.

(** Detection is paused and no interval is armed. *)
Definition Paused (st : State) : Prop :=
  detectionEnabled st = false /\ timers st = [].

(** While paused, an event other than the click on the detection button
    arms no interval and starts no cycle; only a cycle that was already
    awaiting can still publish. *)
Lemma step_Paused (st : State) (ev : Event) :
  Paused st -> ev <> ClickDetection ->
  Paused (step resizeResults st ev) /\
  (length (inflight (step resizeResults st ev)) <= length (inflight st))%nat /\
  (inflight st = [] ->
   facesDetected (step resizeResults st ev) = facesDetected st /\
   facesData (step resizeResults st ev) = facesData st).
Proof.
  intros [Hoff Ht] Hev.
  assert (Hidle : forall f : State -> State,
             detectionEnabled (f st) = detectionEnabled st ->
             timers (f st) = timers st ->
             render st (f st) = f st).
  { intros f Hd Htm. apply render_idle; [rewrite Htm; exact Ht|].
    rewrite Hd, Hoff. apply andb_false_r. }
  destruct ev as [nets|id|k settled| |mode|]; cbn [step].
  - destruct (loading st); [|repeat split; auto].
    destruct (loadModels_resume_frame nets (set_loading false st))
      as (Hd & Htm & _ & Hi & Hn & Hf).
    rewrite (Hidle (fun s => loadModels_resume nets (set_loading false s)));
      [| rewrite Hd; destruct st; reflexivity
       | rewrite Htm; destruct st; reflexivity].
    unfold Paused. rewrite Hd, Htm, Hi, Hn, Hf.
    destruct st; cbn in *. repeat split; auto.
  - rewrite Ht. cbn. repeat split; auto.
  - destruct (nth_error (inflight st) k) as [p|] eqn:Hk; [|repeat split; auto].
    destruct (detectFaces_resume_frame p settled
                (set_inflight (remove_nth k (inflight st)) st))
      as (_ & Hd & Htm & _ & Hi & _).
    split; [|split].
    + unfold Paused. rewrite Hd, Htm. destruct st; cbn in *. split; assumption.
    + rewrite Hi. destruct st; cbn. apply remove_nth_length.
    + intros Hnil. rewrite Hnil in Hk. destruct k; discriminate Hk.
  - exfalso. apply Hev. reflexivity.
  - rewrite (Hidle (setDisplayMode mode));
      [| destruct st; reflexivity | destruct st; reflexivity].
    destruct st; cbn in *. repeat split; auto.
  - rewrite (Hidle (setShowDetails (negb (showDetails st))));
      [| destruct st; reflexivity | destruct st; reflexivity].
    destruct st; cbn in *. repeat split; auto.
Qed.

Lemma run_Paused (events : list Event) :
  forall st,
    Paused st -> Forall (fun ev => ev <> ClickDetection) events ->
    Paused (run resizeResults st events) /\
    (length (inflight (run resizeResults st events)) <= length (inflight st))%nat /\
    (inflight st = [] ->
     facesDetected (run resizeResults st events) = facesDetected st /\
     facesData (run resizeResults st events) = facesData st).
Proof.
  induction events as [|ev events IH]; intros st HP Hall.
  - split; [exact HP|]. split; [cbn; lia|]. intros _. split; reflexivity.
  - inversion Hall as [|? ? Hev Hrest]; subst. cbn [run fold_left].
    destruct (step_Paused st ev HP Hev) as (HP' & Hlen & Hsame).
    destruct (IH _ HP' Hrest) as (HP'' & Hlen' & Hsame').
    unfold run in *. split; [exact HP''|]. split; [lia|].
    intros Hnil. destruct (Hsame Hnil) as [Hn Hd].
    assert (Hnil' : inflight (step resizeResults st ev) = []).
    { rewrite Hnil in Hlen. cbn in Hlen.
      destruct (inflight (step resizeResults st ev)); [reflexivity|].
      cbn in Hlen. lia. }
    destruct (Hsame' Hnil') as [Hn' Hd']. rewrite Hn', Hd'. split; assumption.
Qed.

Lemma mounted_Armed video0 canvasRef0 context2d0 :
  Armed (mounted video0 canvasRef0 context2d0).
Proof. intros t []. Qed.

(** C9, as the code has it: pausing detection clears the interval; from
    then on, until the detection button is clicked again, no interval is
    armed and no cycle starts, so the cycles awaiting their detection can
    only become fewer; and when none was awaiting at the moment of the
    pause, the published count and collection never change. *)
Theorem pause_stops_new_cycles (video0 : option Dimensions)
    (canvasRef0 context2d0 : bool) (history events : list Event) :
  let st := run resizeResults (mounted video0 canvasRef0 context2d0) history in
  detectionEnabled st = true ->
  Forall (fun ev => ev <> ClickDetection) events ->
  let off := step resizeResults st ClickDetection in
  let later := run resizeResults off events in
  (detectionEnabled off = false /\ timers off = [] /\
   facesDetected off = facesDetected st /\ facesData off = facesData st) /\
  (detectionEnabled later = false /\ timers later = [] /\
   forall id, step resizeResults later (IntervalFires id) = later) /\
  (length (inflight later) <= length (inflight off))%nat /\
  (inflight off = [] ->
   facesDetected later = facesDetected off /\ facesData later = facesData off).
Proof.
  intros st Hon Hall off later.
  assert (Harmed : Armed st).
  { apply run_Armed, mounted_Armed. }
  assert (Hoff : off = without_timers (setDetectionEnabled false st)).
  { apply pause_click; assumption. }
  assert (HP : Paused off).
  { rewrite Hoff. destruct st; split; reflexivity. }
  destruct (run_Paused events off HP Hall) as ([Hd Ht] & Hlen & Hsame).
  fold later in Hd, Ht, Hlen, Hsame.
  split; [|split; [|split]].
  - destruct HP as [HP1 HP2]. repeat split; try assumption.
    + rewrite Hoff. destruct st; reflexivity.
    + rewrite Hoff. destruct st; reflexivity.
  - repeat split; try assumption.
    intros id. apply interval_not_armed, Ht.
  - exact Hlen.
  - exact Hsame.
Qed.

End ComponentProperties.

(** * Part III: the component on concrete inputs *)

(** Detections that are already at the display size. *)
Definition same_size : Detections -> Dimensions -> Completion Detections :=
  fun detections _ => Returns detections.

Definition example_detection : Detection.t :=
  Detection.mk (mkBox 10 60 100 100)
               [mkPoint 30 90; mkPoint 50 90; mkPoint 40 110]
               [("neutral", 1 # 10); ("happy", 7 # 10); ("sad", 2 # 10)]
               (Some (236 # 10)) (Some "male").

Definition example_start : State :=
  mounted (Some {| width := VIDEO_WIDTH; height := VIDEO_HEIGHT |}) true true.

Definition all_ok : ModelLoads :=
  mkModelLoads (Js.Fulfilled tt) (Js.Fulfilled tt) (Js.Fulfilled tt)
               (Js.Fulfilled tt) (Js.Fulfilled tt).

Definition expression_net_fails : ModelLoads :=
  mkModelLoads (Js.Fulfilled tt) (Js.Fulfilled tt) (Js.Fulfilled tt)
               (Js.Rejected "404") (Js.Fulfilled tt).

(** The models are loaded, the interval has fired once and its detection
    has been fulfilled with one face: the overlay and the data of a
    successful cycle are on display. *)
Definition example_shown : State :=
  run same_size example_start
      [ ModelsSettled all_ok;
        IntervalFires 1;
        DetectionSettled 0 (Js.Fulfilled [example_detection]) ].

Definition mesh_closure : Closure :=
  {| c_isModelLoaded := true;
     c_detectionEnabled := true;
     c_displayMode := mode_mesh;
     c_showDetails := true |}.

Example example_shown_data :
  facesDetected example_shown = 1%nat /\
  facesData example_shown
  = [ {| gender := "male"; age := 24; emotion := "happy";
         expressions := [("neutral", 10 # 100); ("happy", 70 # 100);
                         ("sad", 20 # 100)] |} ].
Proof. split; reflexivity. Qed.

(** C2, as stated, fails: after a successful cycle, a cycle whose detection
    is rejected keeps the data but leaves the canvas blank, so the overlay
    of the successful cycle is no longer visible. *)
Lemma failed_cycle_blanks_overlay :
  let failed :=
    detectFaces same_size (closure example_shown)
                (Js.Rejected "inference failed") example_shown in
  facesData failed = facesData example_shown /\
  drawn (canvas example_shown) <> [] /\
  drawn (canvas failed) = [] /\
  drawn (canvas failed) <> drawn (canvas example_shown).
Proof.
  cbv zeta. split; [reflexivity|]. split; [discriminate|].
  split; [reflexivity | discriminate].
Qed.

Lemma failed_cycle_keeps_data_witness :
  let failed :=
    detectFaces same_size (closure example_shown)
                (Js.Rejected "inference failed") example_shown in
  facesData failed = facesData example_shown /\
  console failed
  = console example_shown
    ++ [console_error "Error en la detección facial:" "inference failed"] /\
  drawn (canvas failed) = [].
Proof.
  intros failed.
  destruct (failed_cycle_keeps_data same_size (closure example_shown)
              "inference failed" example_shown) as (_ & Hd & _ & Hlog & _).
  split; [exact Hd|].
  destruct (Hlog {| width := VIDEO_WIDTH; height := VIDEO_HEIGHT |}
                 eq_refl eq_refl eq_refl eq_refl) as (_ & Hc & Hb).
  split; [exact Hc | exact Hb].
Defined.

Lemma successful_cycle_publishes_witness :
  let st' :=
    detectFaces same_size mesh_closure
                (Js.Fulfilled [example_detection; example_detection])
                example_shown in
  length (facesData st') = 2%nat /\
  facesDetected st' = 2%nat /\
  facesData st' = map toFaceData [example_detection; example_detection].
Proof.
  apply (successful_cycle_publishes same_size mesh_closure
           [example_detection; example_detection] example_shown
           {| width := VIDEO_WIDTH; height := VIDEO_HEIGHT |});
    reflexivity.
Defined.

Lemma detectFaces_guard_is_noop_witness :
  detectFaces same_size mesh_closure (Js.Fulfilled [example_detection])
              (mounted None true true)
  = mounted None true true.
Proof.
  apply (detectFaces_guard_is_noop same_size mesh_closure
           (Js.Fulfilled [example_detection]) (mounted None true true)).
  left. reflexivity.
Defined.

Lemma mesh_mode_draws_points_only_witness :
  let after :=
    fst (drawCycle same_size mesh_closure
                   {| width := VIDEO_WIDTH; height := VIDEO_HEIGHT |}
                   [example_detection] [toFaceData example_detection]
                   (canvas example_shown)) in
  Forall (fun c => draws_edges c = false) (drawn after).
Proof.
  apply (mesh_mode_draws_points_only same_size mesh_closure
           {| width := VIDEO_WIDTH; height := VIDEO_HEIGHT |}
           [example_detection] [example_detection]
           [toFaceData example_detection] (canvas example_shown));
    reflexivity.
Defined.

Lemma readiness_needs_all_five_models_witness :
  let st :=
    run same_size example_start
        ([ClickDetails] ++ ModelsSettled expression_net_fails
         :: [ModelsSettled all_ok; IntervalFires 1; ClickDetection]) in
  isModelLoaded st = false /\ timers st = [] /\ facesData st = [].
Proof.
  intros st.
  destruct (readiness_needs_all_five_models same_size
              (Some {| width := VIDEO_WIDTH; height := VIDEO_HEIGHT |})
              true true) as [_ Hfail].
  destruct (Hfail [ClickDetails] expression_net_fails
                  [ModelsSettled all_ok; IntervalFires 1; ClickDetection])
    as (_ & Hl & Ht & _ & _ & _ & Hd & _).
  - repeat constructor. discriminate.
  - reflexivity.
  - split; [exact Hl|]. split; [exact Ht | exact Hd].
Defined.

(** C9, as stated, fails: a cycle that was awaiting its detection when
    detection was paused still publishes when the detection is fulfilled,
    although the interval is cleared and detection is not re-enabled. *)
Lemma awaiting_cycle_publishes_after_pause :
  let st := run same_size example_start [ModelsSettled all_ok; IntervalFires 1] in
  let off := step same_size st ClickDetection in
  let later :=
    run same_size off [DetectionSettled 0 (Js.Fulfilled [example_detection])] in
  detectionEnabled st = true /\
  detectionEnabled off = false /\ timers off = [] /\
  detectionEnabled later = false /\
  facesDetected off = 0%nat /\ facesDetected later = 1%nat /\
  facesData later <> facesData off.
Proof.
  cbv zeta. repeat split; try reflexivity. discriminate.
Qed.

Lemma pause_stops_new_cycles_witness :
  let st := run same_size example_start [ModelsSettled all_ok] in
  let off := step same_size st ClickDetection in
  let later := run same_size off [IntervalFires 1; ClickDetails] in
  timers later = [] /\ facesData later = facesData off.
Proof.
  intros st off later.
  destruct (pause_stops_new_cycles same_size
              (Some {| width := VIDEO_WIDTH; height := VIDEO_HEIGHT |})
              true true [ModelsSettled all_ok] [IntervalFires 1; ClickDetails])
    as (_ & (_ & Ht & _) & _ & Hsame).
  - reflexivity.
  - repeat constructor; discriminate.
  - split; [exact Ht|]. apply Hsame. reflexivity.
Defined.

Lemma emoji_fallback_witness : getExpressionEmoji "confused" = Js.VString "❓".
Proof.
  apply (emoji_fallback "confused"); cbn; intros H;
    repeat (destruct H as [H|H]; [discriminate H|]); exact H.
Defined.

(** * Part IV: the rest of the component and the application shell *)

(** ** What FaceDetector renders (lines 224-376) *)

Record Button := mkButton {
  button_label : string;
  button_backgroundColor : string
}.

(** The two buttons, the select, the counter over the video, the
    "Cargando modelos" overlay and the details list. *)
Record View := mkView {
  detectionButton : Button;
  modeSelect : DisplayMode;
  detailsButton : Button;
  counter : Text;
  loadingOverlay : bool;
  detailsPanel : option (list FaceCard)
}.

Definition view (st : State) : View :=
  {| detectionButton :=
       {| button_label :=
            if detectionEnabled st then "Pausar Detección" else "Iniciar Detección";
          button_backgroundColor :=
            if detectionEnabled st then "#ff4757" else "#2ed573" |};
     modeSelect := displayMode st;
     detailsButton :=
       {| button_label :=
            if showDetails st then "Ocultar Detalles" else "Mostrar Detalles";
          button_backgroundColor :=
            if showDetails st then "#f39c12" else "#7f8c8d" |};
     counter :=
       [TText "Rostros detectados: "; TInteger (Z.of_nat (facesDetected st))];
     loadingOverlay := negb (isModelLoaded st);
     detailsPanel := detailsList (facesData st) |}.

(** ** Unmounting (lines 202-206 and 217-221) *)

(** React sets both refs to null when the component unmounts. *)
Definition detach_refs (st : State) : State :=
  let 'mkState a b c d e f g _ _ j k l m n o := st in
  mkState a b c d e f g None false j k l m n o.

(** The cleanups of the two effects, each
    [if (detectionInterval.current) clearInterval(detectionInterval.current)]. *)
Definition unmount (st : State) : State :=
  detach_refs (clearCurrentInterval (clearCurrentInterval st)).

(** ** App.tsx *)

Inductive Tab := tab_motion | tab_face.

Definition Tab_eqb (a b : Tab) : bool :=
  match a, b with
  | tab_motion, tab_motion | tab_face, tab_face => true
  | _, _ => false
  end.

Record TabButton := mkTabButton {
  tab_backgroundColor : string;
  tab_color : string;
  tab_fontWeight : string
}.

(** The style of a tab button, from [activeTab === tab]. *)
Definition tabButton (active : bool) : TabButton :=
  {| tab_backgroundColor := if active then "#3498db" else "#e0e0e0";
     tab_color := if active then "white" else "black";
     tab_fontWeight := if active then "bold" else "normal" |}.

Inductive Detector := MotionDetector | FaceDetector.

Record AppView := mkAppView {
  motionButton : TabButton;
  faceButton : TabButton;
  content : Detector
}.

Definition App (activeTab : Tab) : AppView :=
  {| motionButton := tabButton (Tab_eqb activeTab tab_motion);
     faceButton := tabButton (Tab_eqb activeTab tab_face);
     content :=
       if Tab_eqb activeTab tab_motion then MotionDetector else FaceDetector |}.

(** [useState('motion')] and the two [onClick] handlers, each
    [setActiveTab(tab)]. *)
Definition initialTab : Tab := tab_motion.

Definition clickTab (activeTab clicked : Tab) : Tab := clicked.

Definition clickTabs (clicks : list Tab) : Tab :=
  fold_left clickTab clicks initialTab.

(** * Part V: further properties *)

(** ** Two-decimal rounding *)

Lemma Qle_bool_false (a b : Q) : Qle_bool a b = false -> b < a.
Proof.
  intros H. apply Qnot_le_lt. intros Hle.
  apply Qle_bool_iff in Hle. congruence.
Qed.

Lemma hundredths_le (n m : Z) : (n <= m)%Z -> n # 100 <= m # 100.
Proof. intros H. unfold Qle. cbn. lia. Qed.

Lemma Qfloor_nonneg (q : Q) : 0 <= q -> (0 <= Qfloor q)%Z.
Proof.
  intros H. change 0%Z with (Qfloor 0). apply Qfloor_resp_le, H.
Qed.

(** Rounding to two decimals never swaps two values. *)
Lemma toFixed2_monotone (a b : Q) :
  a <= b -> Js.toFixed2 a <= Js.toFixed2 b.
Proof.
  intros Hab. unfold Js.toFixed2.
  destruct (Qle_bool 0 a) eqn:Ha; destruct (Qle_bool 0 b) eqn:Hb.
  - apply hundredths_le, Qfloor_resp_le. lra.
  - apply Qle_bool_iff in Ha. apply Qle_bool_false in Hb. lra.
  - apply Qle_bool_false in Ha. apply Qle_bool_iff in Hb.
    apply hundredths_le.
    assert (0 <= Qfloor (- a * 100 + (1 # 2)))%Z by (apply Qfloor_nonneg; lra).
    assert (0 <= Qfloor (b * 100 + (1 # 2)))%Z by (apply Qfloor_nonneg; lra).
    lia.
  - apply hundredths_le.
    assert (Qfloor (- b * 100 + (1 # 2)) <= Qfloor (- a * 100 + (1 # 2)))%Z
      by (apply Qfloor_resp_le; lra).
    lia.
Qed.

Lemma toFixed2_hundredths (n : Z) : Js.toFixed2 (n # 100) = n # 100.
Proof.
  unfold Js.toFixed2, Qle_bool. cbn [Qnum Qden].
  destruct (0 * 100 <=? n * 1)%Z eqn:Hn.
  - apply Z.leb_le in Hn. f_equal.
    unfold Qfloor, Qplus, Qmult. cbn [Qnum Qden].
    change (Z.pos (100 * 1 * 2)) with 200%Z.
    change (Z.pos (100 * 1)) with 100%Z.
    change (Z.pos 2) with 2%Z.
    symmetry. apply Z.div_unique with (r := 100%Z); lia.
  - apply Z.leb_gt in Hn. f_equal.
    unfold Qfloor, Qplus, Qmult, Qopp. cbn [Qnum Qden].
    change (Z.pos (100 * 1 * 2)) with 200%Z.
    change (Z.pos (100 * 1)) with 100%Z.
    change (Z.pos 2) with 2%Z.
    rewrite <- (Z.div_unique (- n * 100 * 2 + 1 * 100) 200 (- n) 100); lia.
Qed.

(** Rounding a published probability again changes nothing: the published
    mapping is a fixed point of the rounding. *)
Theorem toFixed2_idempotent (q : Q) :
  Js.toFixed2 (Js.toFixed2 q) = Js.toFixed2 q.
Proof.
  destruct (toFixed2_two_decimals q) as [n ->]. apply toFixed2_hundredths.
Qed.

(** A probability in [0, 1] is published as a value in [0, 1]. *)
Theorem toFixed2_probability (q : Q) :
  0 <= q -> q <= 1 -> 0 <= Js.toFixed2 q /\ Js.toFixed2 q <= 1.
Proof.
  intros H0 H1. split.
  - apply (Qle_trans _ (Js.toFixed2 0)); [unfold Qle; cbn; lia|].
    apply toFixed2_monotone, H0.
  - apply (Qle_trans _ (Js.toFixed2 1)); [|unfold Qle; cbn; lia].
    apply toFixed2_monotone, H1.
Qed.

Lemma toFixed2_probability_witness :
  0 <= Js.toFixed2 (996 # 1000) /\ Js.toFixed2 (996 # 1000) <= 1.
Proof.
  apply (toFixed2_probability (996 # 1000)); unfold Qle; cbn; lia.
Defined.

(** ** The dominant expression, beyond probabilities *)

(** Whatever the values, the result is either the empty label, exactly
    when no value is positive, or a key of the mapping whose value is
    positive and at least as great as every other value: a label that is
    not in the mapping is never returned and a non-positive value is never
    selected. *)
Theorem getDominantExpression_key_or_empty (e : FaceExpressions) :
  (Forall (fun kv => snd kv <= 0) e /\ getDominantExpression e = "")
  \/
  (exists v,
      In (getDominantExpression e, v) e /\ 0 < v /\
      Forall (fun kv => snd kv <= v) e).
Proof.
  unfold getDominantExpression.
  destruct (dominant_fold e 0 "")
    as [[Hall Hres] | (pre & k & v & post & He & Hlt & Hpre & Hpost & Hres)];
    rewrite Hres; cbn [snd].
  - left. split; [exact Hall | reflexivity].
  - right. exists v. subst e. split; [apply in_elt|]. split; [exact Hlt|].
    apply Forall_app. split.
    + eapply Forall_impl; [|exact Hpre]. intros kv H. apply Qlt_le_weak, H.
    + constructor; [apply Qle_refl | exact Hpost].
Qed.

(** ** The FaceData of a detection: defaults and composition *)

(** The stored gender is never the empty string: the library's label when
    it gives a non-empty one, "desconocido" when it gives none or an empty
    one. *)
Theorem toFaceData_gender_never_empty (detection : Detection.t) :
  gender (toFaceData detection) <> "" /\
  (forall g, Detection.gender detection = Some g -> g <> "" ->
             gender (toFaceData detection) = g) /\
  (Detection.gender detection = None \/ Detection.gender detection = Some "" ->
   gender (toFaceData detection) = "desconocido").
Proof.
  unfold toFaceData. cbn [gender]. unfold Js.or_string.
  destruct (Detection.gender detection) as [g|].
  - destruct (String.eqb_spec g "") as [->|Hne].
    + split; [discriminate|]. split; [intros g' [= <-] H; contradiction H; reflexivity|].
      reflexivity.
    + split; [exact Hne|]. split; [intros g' [= <-] _; reflexivity|].
      intros [H|[= H]]; [discriminate H | contradiction].
  - split; [discriminate|]. split; [intros g' H; discriminate H | reflexivity].
Qed.

Lemma toFaceData_gender_never_empty_witness :
  gender (toFaceData (Detection.mk (mkBox 0 0 1 1) [] [] None (Some "")))
  = "desconocido".
Proof.
  apply (toFaceData_gender_never_empty
           (Detection.mk (mkBox 0 0 1 1) [] [] None (Some ""))).
  right. reflexivity.
Defined.

(** The published age is 0 when the library gives no age, and is never
    negative when the estimate is not. *)
Theorem toFaceData_age_not_negative (detection : Detection.t) :
  (forall a, Detection.age detection = Some a -> 0 <= a) ->
  (0 <= age (toFaceData detection))%Z /\
  (Detection.age detection = None -> age (toFaceData detection) = 0%Z).
Proof.
  intros Hage. unfold toFaceData. cbn [age]. unfold Js.or_number, Js.Math_round.
  destruct (Detection.age detection) as [a|].
  - split; [|intros H; discriminate H].
    specialize (Hage a eq_refl).
    destruct (Qeq_bool a 0); apply Qfloor_nonneg; lra.
  - split; [|reflexivity]. apply Qfloor_nonneg. lra.
Qed.

Lemma toFaceData_age_not_negative_witness :
  (0 <= age (toFaceData rounding_example))%Z.
Proof.
  apply (toFaceData_age_not_negative rounding_example).
  intros a [= <-]. unfold Qle. cbn. lia.
Defined.



Lemma emoji_of_category (k : string) :
  In k (map fst emojiMap) ->
  exists glyph, getExpressionEmoji k = Js.VString glyph /\ In (k, glyph) emojiMap.
Proof.
  cbn. intros H.
  repeat (destruct H as [<-|H];
          [eexists; split; [reflexivity | cbn; tauto]|]).
  contradiction.
Qed.

(** When the keys of the expressions are among the seven categories, as
    face-api.js gives them, the emoji of the published emotion is always a
    glyph: the one of the table for a category, the fallback for the empty
    label.  The lookup never leaves the table on what the component feeds
    it. *)
Theorem emoji_of_published_emotion (detection : Detection.t) :
  incl (map fst (Detection.expressions detection)) (map fst emojiMap) ->
  let emotion := emotion (toFaceData detection) in
  exists glyph,
    getExpressionEmoji emotion = Js.VString glyph /\
    ((emotion = "" /\ glyph = "❓") \/ In (emotion, glyph) emojiMap).
Proof.
  intros Hkeys. cbn zeta. unfold toFaceData. cbn [emotion].
  unfold getDominantExpression.
  destruct (dominant_fold (Detection.expressions detection) 0 "")
    as [[Hall Hres] | (pre & k & v & post & He & Hlt & Hpre & Hpost & Hres)];
    rewrite Hres; cbn [snd].
  - exists "❓". split; [reflexivity|]. left. split; reflexivity.
  - assert (Hk : In k (map fst emojiMap)).
    { apply Hkeys. rewrite He, map_app. apply in_or_app. right. left.
      reflexivity. }
    destruct (emoji_of_category k Hk) as (glyph & Hg & Hin).
    exists glyph. split; [exact Hg|]. right. exact Hin.
Qed.

Lemma emoji_of_published_emotion_witness :
  exists glyph,
    getExpressionEmoji (emotion (toFaceData example_detection))
    = Js.VString glyph.
Proof.
  destruct (emoji_of_published_emotion example_detection) as (glyph & Hg & _).
  - intros k Hk. cbn in Hk. cbn. tauto.
  - exists glyph. exact Hg.
Defined.

(** ** What a cycle leaves on the canvas *)

(** The drawing of the selected mode: exactly one of the three. *)
Definition modeDrawing (mode : DisplayMode) (resized : Detections) : list DrawCmd :=
  match mode with
  | mode_landmarks => [DrawFaceLandmarks resized]
  | mode_expressions => [DrawFaceExpressions resized]
  | mode_mesh => flat_map meshFace resized
  end.

(** One panel per face, each with the FaceData of the same index. *)
Definition panels (resized : Detections) (faceDataArray : list FaceData) : list DrawCmd :=
  flat_map (fun '(detection, faceData) => panel detection faceData)
           (combine resized faceDataArray).

Lemma skipn_cons_nth {A : Type} (idx : nat) :
  forall (l : list A) a rest,
    skipn idx l = a :: rest ->
    nth_error l idx = Some a /\ skipn (S idx) l = rest.
Proof.
  induction idx as [|idx IH]; intros l a rest H.
  - destruct l as [|b l]; [discriminate H|]. cbn in H. injection H as -> ->.
    split; reflexivity.
  - destruct l as [|b l]; [discriminate H|]. cbn [skipn] in H.
    destruct (IH l a rest H) as [Hn Hs]. split; [exact Hn | exact Hs].
Qed.

(** With a 2d context and a FaceData for every face, the details pass
    throws nothing and draws the panels in order. *)
Lemma drawDetails_draws (faceDataArray : list FaceData) (resized : Detections) :
  forall idx rest canvas,
    context2d canvas = true ->
    skipn idx faceDataArray = rest ->
    (length resized <= length rest)%nat ->
    forEach
      (fun detection idx =>
         ifCtx
           match nth_error faceDataArray idx with
           | Some faceData => issue (panel detection faceData)
           | None => throw "TypeError: Cannot read properties of undefined"
           end)
      resized idx canvas
    = ({| size := size canvas;
          context2d := context2d canvas;
          drawn := drawn canvas ++ panels resized rest |}, None).
Proof.
  induction resized as [|detection resized IH]; intros idx rest canvas Hctx Hskip Hlen.
  - cbn [forEach]. unfold skip, panels. cbn. rewrite app_nil_r.
    destruct canvas; reflexivity.
  - destruct rest as [|faceData rest]; [cbn in Hlen; lia|].
    destruct (skipn_cons_nth idx faceDataArray faceData rest Hskip) as [Hn Hs].
    cbn [forEach]. unfold andThen, ifCtx at 1. rewrite Hctx, Hn.
    unfold issue at 1.
    rewrite (IH (S idx) rest) by (cbn in *; try assumption; lia).
    cbn [size context2d drawn]. rewrite Hctx. unfold panels. cbn [combine flat_map].
    rewrite <- app_assoc. reflexivity.
Qed.

Section CycleProperties.

Variable resizeResults : Detections -> Dimensions -> Completion Detections.

Lemma drawCycle_draws (cl : Closure) (displaySize : Dimensions)
    (detections resized : Detections) (faceDataArray : list FaceData)
    (canvas : Canvas) :
  context2d canvas = true ->
  resizeResults detections displaySize = Returns resized ->
  (length resized <= length faceDataArray)%nat ->
  drawCycle resizeResults cl displaySize detections faceDataArray canvas
  = ({| size := size canvas;
        context2d := true;
        drawn :=
          DrawDetections resized
          :: modeDrawing (c_displayMode cl) resized
          ++ (if c_showDetails cl then panels resized faceDataArray else []) |},
     None).
Proof.
  intros Hctx Hres Hlen.
  destruct canvas as [sz ctx dr]. cbn in Hctx. subst ctx.
  unfold drawCycle. rewrite Hres.
  unfold andThen at 1. unfold ifCtx at 1, clearRect. cbn [context2d size].
  unfold andThen at 1. unfold helper at 1. cbn [context2d]. unfold issue at 1.
  cbn [size context2d drawn app].
  unfold andThen at 1.
  assert (Hmode :
    match c_displayMode cl with
    | mode_landmarks => helper DrawFaceLandmarks resized
    | mode_expressions => helper DrawFaceExpressions resized
    | mode_mesh => drawMesh resized
    end {| size := sz; context2d := true; drawn := [DrawDetections resized] |}
    = ({| size := sz; context2d := true;
          drawn := DrawDetections resized
                   :: modeDrawing (c_displayMode cl) resized |}, None)).
  { destruct (c_displayMode cl); cbn [modeDrawing].
    - reflexivity.
    - reflexivity.
    - unfold drawMesh. rewrite drawMesh_draws by reflexivity. reflexivity. }
  rewrite Hmode.
  destruct (c_showDetails cl).
  - unfold drawDetails.
    rewrite (drawDetails_draws faceDataArray resized 0 faceDataArray)
      by (try reflexivity; exact Hlen).
    reflexivity.
  - unfold skip. rewrite app_nil_r. reflexivity.
Qed.

(** No accumulation: on a canvas with a 2d context, what a cycle draws,
    and whether it throws, does not depend on what was on the canvas
    before. *)
Theorem drawCycle_no_accumulation (cl : Closure) (displaySize : Dimensions)
    (detections : Detections) (faceDataArray : list FaceData)
    (canvas1 canvas2 : Canvas) :
  size canvas1 = size canvas2 ->
  context2d canvas1 = true -> context2d canvas2 = true ->
  drawCycle resizeResults cl displaySize detections faceDataArray canvas1
  = drawCycle resizeResults cl displaySize detections faceDataArray canvas2.
Proof.
  intros Hsize H1 H2.
  destruct canvas1 as [sz1 ctx1 dr1], canvas2 as [sz2 ctx2 dr2].
  cbn in Hsize, H1, H2. subst.
  unfold drawCycle, andThen at 1 3. unfold ifCtx at 1 2, clearRect.
  reflexivity.
Qed.

(** A cycle whose detection is fulfilled, on a canvas with a 2d context,
    when the resized detections are as many as the detections: no error is
    logged, and the canvas holds the boxes, then the drawing of the one
    selected mode, then, only if the details are shown, one panel per face
    with the FaceData of that face. *)
Theorem cycle_draws_exactly (p : Pending) (detections resized : Detections)
    (st : State) :
  context2d (canvas st) = true ->
  resizeResults detections (p_displaySize p) = Returns resized ->
  length resized = length detections ->
  let st' := detectFaces_resume resizeResults p (Js.Fulfilled detections) st in
  console st' = console st /\
  drawn (canvas st')
  = DrawDetections resized
    :: modeDrawing (c_displayMode (p_closure p)) resized
    ++ (if c_showDetails (p_closure p)
        then panels resized (map toFaceData detections) else []).
Proof.
  intros Hctx Hres Hlen. cbn zeta. unfold detectFaces_resume.
  assert (Hdraw :
    drawCycle resizeResults (p_closure p) (p_displaySize p) detections
      (map toFaceData detections)
      (canvas (setFacesData (map toFaceData detections)
                            (setFacesDetected (length detections) st)))
    = ({| size := size (canvas st);
          context2d := true;
          drawn :=
            DrawDetections resized
            :: modeDrawing (c_displayMode (p_closure p)) resized
            ++ (if c_showDetails (p_closure p)
                then panels resized (map toFaceData detections) else []) |},
       None)).
  { replace (canvas (setFacesData (map toFaceData detections)
                                  (setFacesDetected (length detections) st)))
      with (canvas st) by (destruct st; reflexivity).
    apply drawCycle_draws; [exact Hctx | exact Hres|].
    rewrite length_map, Hlen. apply Nat.le_refl. }
  rewrite Hdraw. destruct st; cbn. split; reflexivity.
Qed.

(** A failure after the detection has resolved does not roll back what was
    published: when [resizeResults] throws, the count and the collection of
    this cycle are already in the state, the error is logged, and a canvas
    with a 2d context is left blank. *)
Theorem drawing_failure_keeps_publication (p : Pending)
    (detections : Detections) (error : string) (st : State) :
  resizeResults detections (p_displaySize p) = Throws error ->
  let st' := detectFaces_resume resizeResults p (Js.Fulfilled detections) st in
  facesDetected st' = length detections /\
  facesData st' = map toFaceData detections /\
  console st' =
    console st ++ [console_error "Error en la detección facial:" error] /\
  drawn (canvas st') = if context2d (canvas st) then [] else drawn (canvas st).
Proof.
  intros Hres. cbn zeta. unfold detectFaces_resume, drawCycle.
  rewrite Hres. unfold andThen, ifCtx, clearRect, throw, skip.
  destruct st as [a b c d e f g h i [sz ctx dr] k l m n o]. cbn.
  destruct ctx; cbn; repeat split; reflexivity.
Qed.

End CycleProperties.

Lemma drawCycle_no_accumulation_witness :
  drawCycle same_size mesh_closure
            {| width := VIDEO_WIDTH; height := VIDEO_HEIGHT |}
            [example_detection] [toFaceData example_detection]
            (canvas example_shown)
  = drawCycle same_size mesh_closure
              {| width := VIDEO_WIDTH; height := VIDEO_HEIGHT |}
              [example_detection] [toFaceData example_detection]
              (canvas example_start).
Proof.
  apply (drawCycle_no_accumulation same_size); reflexivity.
Defined.

Lemma cycle_draws_exactly_witness :
  drawn (canvas (detectFaces_resume same_size
                   {| p_closure := closure example_shown;
                      p_displaySize := {| width := VIDEO_WIDTH;
                                          height := VIDEO_HEIGHT |} |}
                   (Js.Fulfilled [example_detection]) example_shown))
  = DrawDetections [example_detection]
    :: DrawFaceLandmarks [example_detection]
    :: panel example_detection (toFaceData example_detection).
Proof.
  apply (cycle_draws_exactly same_size
           {| p_closure := closure example_shown;
              p_displaySize := {| width := VIDEO_WIDTH; height := VIDEO_HEIGHT |} |}
           [example_detection] [example_detection] example_shown);
    reflexivity.
Defined.

(** A [resizeResults] that rejects every display size. *)
Definition resize_throws : Detections -> Dimensions -> Completion Detections :=
  fun _ _ => Throws "resizeResults - invalid dimensions".

Lemma drawing_failure_keeps_publication_witness :
  facesData (detectFaces_resume resize_throws
               {| p_closure := mesh_closure;
                  p_displaySize := {| width := 0; height := 0 |} |}
               (Js.Fulfilled [example_detection]) example_start)
  = [toFaceData example_detection].
Proof.
  apply (drawing_failure_keeps_publication resize_throws
           {| p_closure := mesh_closure;
              p_displaySize := {| width := 0; height := 0 |} |}
           [example_detection] "resizeResults - invalid dimensions"
           example_start).
  reflexivity.
Defined.

(** ** The event loop: what every reachable state satisfies *)

Lemma deps_eqb_eq (a b : Closure) : deps_eqb a b = true -> a = b.
Proof.
  destruct a as [l1 e1 m1 s1], b as [l2 e2 m2 s2]. unfold deps_eqb. cbn.
  destruct l1, l2, e1, e2, m1, m2, s1, s2; cbn; intros H;
    try discriminate H; reflexivity.
Qed.

(** Everything a render cannot touch: all of the state but the armed
    intervals, the ref to the interval and the next interval id. *)
Definition same_but_interval (a b : State) : Prop :=
  closure a = closure b /\
  facesDetected a = facesDetected b /\
  facesData a = facesData b /\
  video a = video b /\
  canvasRef a = canvasRef b /\
  canvas a = canvas b /\
  loading a = loading b /\
  inflight a = inflight b /\
  console a = console b.

Lemma render_frame (before after : State) :
  same_but_interval (render before after) after.
Proof.
  unfold render, intervalEffect, intervalCleanup.
  destruct (deps_eqb (closure before) (closure after));
    [repeat split; reflexivity|].
  destruct after as [a b c d e f g h i j k l m n o].
  unfold clearCurrentInterval, clearInterval, setInterval_into_ref. cbn.
  destruct g; cbn; destruct (a && c); cbn; repeat split; reflexivity.
Qed.

Lemma detectFaces_begin_keeps (cl : Closure) (st : State) :
  let st' := fst (detectFaces_begin cl st) in
  closure st' = closure st /\
  facesDetected st' = facesDetected st /\
  facesData st' = facesData st /\
  video st' = video st /\
  canvasRef st' = canvasRef st /\
  console st' = console st.
Proof.
  cbn zeta. unfold detectFaces_begin.
  destruct st as [a b c d e f g h i j k l m n o]. cbn.
  destruct h; [|repeat split; reflexivity].
  destruct (negb i || negb (c_isModelLoaded cl) || negb (c_detectionEnabled cl));
    cbn; repeat split; reflexivity.
Qed.

Lemma detectFaces_resume_keeps (resizeResults : Detections -> Dimensions -> Completion Detections)
    (p : Pending) (settled : Js.Settled Detections) (st : State) :
  let st' := detectFaces_resume resizeResults p settled st in
  closure st' = closure st /\
  video st' = video st /\
  canvasRef st' = canvasRef st.
Proof.
  cbn zeta. unfold detectFaces_resume. destruct settled as [detections|error].
  - destruct (drawCycle _ _ _ _ _ _) as [canvas' [error|]];
      destruct st; cbn; repeat split; reflexivity.
  - destruct st; cbn; repeat split; reflexivity.
Qed.

Lemma loadModels_resume_keeps (nets : ModelLoads) (st : State) :
  let st' := loadModels_resume nets st in
  isModelLoaded st' = isModelLoaded st || all_five_loaded nets /\
  displayMode st' = displayMode st /\
  showDetails st' = showDetails st /\
  video st' = video st /\
  canvasRef st' = canvasRef st /\
  canvas st' = canvas st /\
  loading st' = loading st.
Proof.
  cbn zeta.
  destruct (all_five_loaded nets) eqn:Hok.
  - rewrite (loadModels_resume_loaded nets st Hok).
    destruct st; cbn. rewrite orb_true_r. repeat split; reflexivity.
  - destruct (loadModels_resume_failed nets st Hok) as [error ->].
    destruct st; cbn. rewrite orb_false_r. repeat split; reflexivity.
Qed.

Section EventProperties.

Variable resizeResults : Detections -> Dimensions -> Completion Detections.

(** The interval is armed exactly when the models are loaded and detection
    is enabled; then it is the only one, it is the one the ref names, and
    its callback closes over the current values of the state. *)
Definition IntervalInv (st : State) : Prop :=
  if isModelLoaded st && detectionEnabled st
  then exists id, timers st = [(id, closure st)] /\ detectionInterval st = Some id
  else timers st = [].

Lemma IntervalInv_Armed (st : State) : IntervalInv st -> Armed st.
Proof.
  unfold IntervalInv, Armed.
  destruct (isModelLoaded st && detectionEnabled st).
  - intros (id & Ht & Hr) t Hin. rewrite Ht in Hin.
    destruct Hin as [<-|[]]. exact Hr.
  - intros Ht t Hin. rewrite Ht in Hin. destruct Hin.
Qed.

Lemma IntervalInv_update (st st' : State) :
  IntervalInv st ->
  closure st' = closure st ->
  timers st' = timers st ->
  detectionInterval st' = detectionInterval st ->
  IntervalInv st'.
Proof.
  unfold IntervalInv. intros H Hc Ht Hr.
  assert (Hl : isModelLoaded st' = isModelLoaded st)
    by exact (f_equal c_isModelLoaded Hc).
  assert (He : detectionEnabled st' = detectionEnabled st)
    by exact (f_equal c_detectionEnabled Hc).
  rewrite Hl, He, Ht, Hr, Hc. exact H.
Qed.

Lemma render_IntervalInv (before after : State) :
  IntervalInv before ->
  timers after = timers before ->
  detectionInterval after = detectionInterval before ->
  IntervalInv (render before after).
Proof.
  intros H Ht Hr. unfold render.
  destruct (deps_eqb (closure before) (closure after)) eqn:Hdeps.
  - apply deps_eqb_eq in Hdeps.
    apply (IntervalInv_update before); [exact H | symmetry; exact Hdeps | exact Ht | exact Hr].
  - assert (Ha : Armed after).
    { intros t Hin. rewrite Ht in Hin. rewrite Hr.
      apply (IntervalInv_Armed before H), Hin. }
    unfold intervalEffect, intervalCleanup.
    rewrite (clearCurrentInterval_armed after Ha).
    destruct after as [a b c d e f g h i j k l m n o].
    unfold IntervalInv, clearCurrentInterval, clearInterval, setInterval_into_ref.
    cbn. destruct (a && c) eqn:Hon; cbn.
    + rewrite Hon. exists l. split; reflexivity.
    + destruct g; cbn; rewrite Hon; reflexivity.
Qed.

Lemma step_IntervalInv (st : State) (ev : Event) :
  IntervalInv st -> IntervalInv (step resizeResults st ev).
Proof.
  intros H. destruct ev as [nets|id|k settled| |mode|]; cbn [step].
  - destruct (loading st); [|exact H]. apply render_IntervalInv; [exact H| |].
    + destruct (loadModels_resume_frame nets (set_loading false st))
        as (_ & Ht & _). rewrite Ht. destruct st; reflexivity.
    + destruct (loadModels_resume_frame nets (set_loading false st))
        as (_ & _ & Hr & _). rewrite Hr. destruct st; reflexivity.
  - destruct (find _ (timers st)) as [[id' callback]|]; [|exact H].
    pose proof (detectFaces_begin_keeps callback st) as (Hc & _).
    pose proof (detectFaces_begin_frame callback st) as (_ & Ht & Hr & _).
    destruct (detectFaces_begin callback st) as [st' [p|]]; cbn [fst] in *.
    + apply (IntervalInv_update st); [exact H | | |].
      * rewrite <- Hc. destruct st'; reflexivity.
      * rewrite <- Ht. destruct st'; reflexivity.
      * rewrite <- Hr. destruct st'; reflexivity.
    + apply (IntervalInv_update st); assumption.
  - destruct (nth_error (inflight st) k) as [p|]; [|exact H].
    destruct (detectFaces_resume_keeps resizeResults p settled
                (set_inflight (remove_nth k (inflight st)) st)) as (Hc & _).
    destruct (detectFaces_resume_frame resizeResults p settled
                (set_inflight (remove_nth k (inflight st)) st))
      as (_ & _ & Ht & Hr & _).
    apply (IntervalInv_update st); [exact H | | |].
    + rewrite Hc. destruct st; reflexivity.
    + rewrite Ht. destruct st; reflexivity.
    + rewrite Hr. destruct st; reflexivity.
  - apply render_IntervalInv; [exact H | |]; destruct st; reflexivity.
  - apply render_IntervalInv; [exact H | |]; destruct st; reflexivity.
  - apply render_IntervalInv; [exact H | |]; destruct st; reflexivity.
Qed.

Lemma run_IntervalInv (events : list Event) :
  forall st, IntervalInv st -> IntervalInv (run resizeResults st events).
Proof.
  induction events as [|ev events IH]; intros st H; [exact H|].
  cbn [run fold_left]. apply IH, step_IntervalInv, H.
Qed.

Lemma mounted_IntervalInv video0 canvasRef0 context2d0 :
  IntervalInv (mounted video0 canvasRef0 context2d0).
Proof. reflexivity. Qed.

Lemma closure_isModelLoaded (a b : State) :
  closure a = closure b -> isModelLoaded a = isModelLoaded b.
Proof. intros H. exact (f_equal c_isModelLoaded H). Qed.

(** The one way [isModelLoaded] changes: the first settlement of
    [loadModels], when all five loads are fulfilled. *)
Lemma step_isModelLoaded (st : State) (ev : Event) :
  isModelLoaded (step resizeResults st ev)
  = isModelLoaded st
    || match ev with
       | ModelsSettled nets => loading st && all_five_loaded nets
       | _ => false
       end.
Proof.
  destruct ev as [nets|id|k settled| |mode|]; cbn [step].
  - destruct (loading st); cbn [andb]; [|rewrite orb_false_r; reflexivity].
    destruct (render_frame st (loadModels_resume nets (set_loading false st)))
      as (Hc & _).
    rewrite (closure_isModelLoaded _ _ Hc).
    destruct (loadModels_resume_keeps nets (set_loading false st)) as (Hl & _).
    rewrite Hl. destruct st; reflexivity.
  - rewrite orb_false_r.
    destruct (find _ (timers st)) as [[id' callback]|]; [|reflexivity].
    pose proof (detectFaces_begin_keeps callback st) as (Hc & _).
    destruct (detectFaces_begin callback st) as [st' [p|]]; cbn [fst] in Hc.
    + rewrite <- (closure_isModelLoaded _ _ Hc). destruct st'; reflexivity.
    + exact (closure_isModelLoaded _ _ Hc).
  - rewrite orb_false_r.
    destruct (nth_error (inflight st) k) as [p|]; [|reflexivity].
    destruct (detectFaces_resume_keeps resizeResults p settled
                (set_inflight (remove_nth k (inflight st)) st)) as (Hc & _).
    rewrite (closure_isModelLoaded _ _ Hc). destruct st; reflexivity.
  - rewrite orb_false_r.
    destruct (render_frame st (setDetectionEnabled (negb (detectionEnabled st)) st))
      as (Hc & _).
    rewrite (closure_isModelLoaded _ _ Hc). destruct st; reflexivity.
  - rewrite orb_false_r.
    destruct (render_frame st (setDisplayMode mode st)) as (Hc & _).
    rewrite (closure_isModelLoaded _ _ Hc). destruct st; reflexivity.
  - rewrite orb_false_r.
    destruct (render_frame st (setShowDetails (negb (showDetails st)) st))
      as (Hc & _).
    rewrite (closure_isModelLoaded _ _ Hc). destruct st; reflexivity.
Qed.

(** Once the models are loaded they stay loaded, whatever happens. *)
Theorem model_readiness_is_permanent (events : list Event) :
  forall st,
    isModelLoaded st = true ->
    isModelLoaded (run resizeResults st events) = true.
Proof.
  induction events as [|ev events IH]; intros st H; [exact H|].
  cbn [run fold_left]. apply IH. rewrite step_isModelLoaded, H. reflexivity.
Qed.

Lemma step_keeps_NotReady (st : State) (ev : Event) :
  (isModelLoaded st = false -> NotReady st) ->
  isModelLoaded (step resizeResults st ev) = false ->
  NotReady (step resizeResults st ev).
Proof.
  intros Hinv Hafter. pose proof Hafter as Hformula.
  rewrite step_isModelLoaded in Hformula.
  apply orb_false_iff in Hformula. destruct Hformula as [Hbefore Hev].
  apply step_NotReady; [exact (Hinv Hbefore)|].
  intros Hload nets ->. rewrite Hload in Hev. exact Hev.
Qed.

Lemma run_keeps_NotReady (events : list Event) :
  forall st,
    (isModelLoaded st = false -> NotReady st) ->
    isModelLoaded (run resizeResults st events) = false ->
    NotReady (run resizeResults st events).
Proof.
  induction events as [|ev events IH]; intros st Hinv Hafter; [exact (Hinv Hafter)|].
  cbn [run fold_left] in *. apply IH; [|exact Hafter].
  apply step_keeps_NotReady, Hinv.
Qed.

(** While the "Cargando modelos" overlay is shown, in any state the
    component can reach, the counter reads 0, there is no details list,
    the canvas is blank, no interval is armed and no cycle is awaiting. *)
Theorem nothing_before_models_load (video0 : option Dimensions)
    (canvasRef0 context2d0 : bool) (history : list Event) :
  let st := run resizeResults (mounted video0 canvasRef0 context2d0) history in
  loadingOverlay (view st) = true ->
  counter (view st) = [TText "Rostros detectados: "; TInteger 0] /\
  detailsPanel (view st) = None /\
  drawn (canvas st) = [] /\
  timers st = [] /\
  inflight st = [].
Proof.
  intros st Hoverlay.
  assert (Hl : isModelLoaded st = false).
  { cbn in Hoverlay. apply negb_true_iff in Hoverlay. exact Hoverlay. }
  destruct (run_keeps_NotReady history (mounted video0 canvasRef0 context2d0)
              (fun _ => mounted_NotReady video0 canvasRef0 context2d0) Hl)
    as (_ & Ht & Hi & Hn & Hd & Hc).
  fold st in Ht, Hi, Hn, Hd, Hc.
  unfold view. cbn [counter detailsPanel]. rewrite Hn, Hd.
  repeat split; try assumption; reflexivity.
Qed.

Lemma mapi_length {A B : Type} (f : A -> nat -> B) (l : list A) :
  forall index, length (mapi f l index) = length l.
Proof.
  induction l as [|a l IH]; intros index; cbn; [reflexivity|].
  rewrite IH. reflexivity.
Qed.

Lemma step_count (st : State) (ev : Event) :
  facesDetected st = length (facesData st) ->
  facesDetected (step resizeResults st ev)
  = length (facesData (step resizeResults st ev)).
Proof.
  intros H. destruct ev as [nets|id|k settled| |mode|]; cbn [step].
  - destruct (loading st); [|exact H].
    destruct (render_frame st (loadModels_resume nets (set_loading false st)))
      as (_ & Hn & Hd & _).
    destruct (loadModels_resume_frame nets (set_loading false st))
      as (_ & _ & _ & _ & Hn' & Hd').
    rewrite Hn, Hd, Hn', Hd'. destruct st; exact H.
  - destruct (find _ (timers st)) as [[id' callback]|]; [|exact H].
    pose proof (detectFaces_begin_keeps callback st) as (_ & Hn & Hd & _).
    destruct (detectFaces_begin callback st) as [st' [p|]]; cbn [fst] in *.
    + replace (facesDetected (set_inflight (inflight st' ++ [p]) st'))
        with (facesDetected st') by (destruct st'; reflexivity).
      replace (facesData (set_inflight (inflight st' ++ [p]) st'))
        with (facesData st') by (destruct st'; reflexivity).
      rewrite Hn, Hd. exact H.
    + rewrite Hn, Hd. exact H.
  - destruct (nth_error (inflight st) k) as [p|]; [|exact H].
    destruct settled as [detections|error].
    + destruct (detectFaces_resume_publishes resizeResults p detections
                  (set_inflight (remove_nth k (inflight st)) st)) as [Hn Hd].
      rewrite Hn, Hd, length_map. reflexivity.
    + rewrite detectFaces_resume_rejected. destruct st; exact H.
  - destruct (render_frame st (setDetectionEnabled (negb (detectionEnabled st)) st))
      as (_ & Hn & Hd & _).
    rewrite Hn, Hd. destruct st; exact H.
  - destruct (render_frame st (setDisplayMode mode st)) as (_ & Hn & Hd & _).
    rewrite Hn, Hd. destruct st; exact H.
  - destruct (render_frame st (setShowDetails (negb (showDetails st)) st))
      as (_ & Hn & Hd & _).
    rewrite Hn, Hd. destruct st; exact H.
Qed.

Lemma run_count (events : list Event) :
  forall st,
    facesDetected st = length (facesData st) ->
    facesDetected (run resizeResults st events)
    = length (facesData (run resizeResults st events)).
Proof.
  induction events as [|ev events IH]; intros st H; [exact H|].
  cbn [run fold_left]. apply IH, step_count, H.
Qed.

(** In any state the component can reach, the counter over the video
    agrees with the details list: the list is absent exactly when the
    counter reads 0, and otherwise has as many cards as the counter
    reads. *)
Theorem counter_agrees_with_details_list (video0 : option Dimensions)
    (canvasRef0 context2d0 : bool) (history : list Event) :
  let st := run resizeResults (mounted video0 canvasRef0 context2d0) history in
  counter (view st)
  = [TText "Rostros detectados: ";
     TInteger (Z.of_nat (length (facesData st)))] /\
  (detailsPanel (view st) = None <-> facesDetected st = 0%nat) /\
  (forall cards,
      detailsPanel (view st) = Some cards -> length cards = facesDetected st).
Proof.
  intros st.
  assert (H : facesDetected st = length (facesData st)).
  { apply run_count. reflexivity. }
  unfold view. cbn [counter detailsPanel]. unfold detailsList.
  rewrite H. split; [reflexivity|].
  destruct (facesData st) as [|face faces]; cbn [length Nat.ltb Nat.leb].
  - split; [split; reflexivity|]. intros cards Hc. discriminate Hc.
  - split; [split; intros Hc; discriminate Hc|].
    intros cards [= <-]. apply (mapi_length faceCard (face :: faces) 0).
Qed.

(** In any state the component can reach, at most one interval is armed;
    one is armed exactly when the models are loaded and detection is
    enabled, and it is the one [detectionInterval.current] names. *)
Theorem one_interval_while_running (video0 : option Dimensions)
    (canvasRef0 context2d0 : bool) (history : list Event) :
  let st := run resizeResults (mounted video0 canvasRef0 context2d0) history in
  (length (timers st) <= 1)%nat /\
  (timers st <> [] <-> isModelLoaded st = true /\ detectionEnabled st = true) /\
  (forall id callback,
      In (id, callback) (timers st) -> detectionInterval st = Some id).
Proof.
  intros st.
  assert (H : IntervalInv st).
  { apply run_IntervalInv, mounted_IntervalInv. }
  unfold IntervalInv in H.
  destruct (isModelLoaded st && detectionEnabled st) eqn:Hon.
  - destruct H as (id & Ht & Hr). rewrite Ht. apply andb_true_iff in Hon.
    split; [cbn; lia|]. split.
    + split; [intros _; exact Hon | intros _ Hnil; discriminate Hnil].
    + intros id' callback [[= <- <-]|[]]. exact Hr.
  - rewrite H. split; [cbn; lia|]. split.
    + split; [intros Hne; contradiction Hne; reflexivity|].
      intros [Hl He]. rewrite Hl, He in Hon. discriminate Hon.
    + intros id callback [].
Qed.

Lemma detectFaces_begin_pending (cl : Closure) (st st' : State) (p : Pending) :
  detectFaces_begin cl st = (st', Some p) ->
  p_closure p = cl /\ inflight st' = inflight st.
Proof.
  unfold detectFaces_begin.
  destruct (video st) as [v|]; [|intros H; discriminate H].
  destruct (negb (canvasRef st) || negb (c_isModelLoaded cl)
            || negb (c_detectionEnabled cl)); [intros H; discriminate H|].
  intros [= <- <-]. split; [reflexivity | destruct st; reflexivity].
Qed.

(** No stale configuration: in any state the component can reach, the
    callback of the armed interval closes over the current display mode
    and details flag, so every cycle an interval starts draws with the
    settings in force when it starts. *)
Theorem interval_callback_is_current (video0 : option Dimensions)
    (canvasRef0 context2d0 : bool) (history : list Event) :
  let st := run resizeResults (mounted video0 canvasRef0 context2d0) history in
  (forall id callback, In (id, callback) (timers st) -> callback = closure st) /\
  (forall id p,
      In p (inflight (step resizeResults st (IntervalFires id))) ->
      In p (inflight st) \/
      (c_displayMode (p_closure p) = displayMode st /\
       c_showDetails (p_closure p) = showDetails st)).
Proof.
  intros st.
  assert (H : IntervalInv st).
  { apply run_IntervalInv, mounted_IntervalInv. }
  assert (Hcb : forall id callback,
             In (id, callback) (timers st) -> callback = closure st).
  { unfold IntervalInv in H.
    destruct (isModelLoaded st && detectionEnabled st).
    - destruct H as (id0 & Ht & _). rewrite Ht.
      intros id callback [[= _ <-]|[]]. reflexivity.
    - rewrite H. intros id callback []. }
  split; [exact Hcb|].
  intros id p. cbn [step].
  destruct (find _ (timers st)) as [[id' callback]|] eqn:Hfind; [|left; assumption].
  apply find_some in Hfind. destruct Hfind as [Hin _].
  pose proof (Hcb id' callback Hin) as Hcl.
  destruct (detectFaces_begin callback st) as [st' [p'|]] eqn:Hbegin.
  - destruct (detectFaces_begin_pending callback st st' p' Hbegin) as [Hp Hi].
    intros Hin'.
    assert (Hin'' : In p (inflight st' ++ [p'])) by (destruct st'; exact Hin').
    apply in_app_or in Hin''. destruct Hin'' as [Hold|[<-|[]]].
    + left. rewrite <- Hi. exact Hold.
    + right. rewrite Hp, Hcl. split; reflexivity.
  - pose proof (detectFaces_begin_frame callback st) as (_ & _ & _ & Hi).
    rewrite Hbegin in Hi. cbn [fst] in Hi. rewrite Hi. left. assumption.
Qed.

(** The three controls. *)
Definition is_control (ev : Event) : bool :=
  match ev with
  | ClickDetection | SelectDisplayMode _ | ClickDetails => true
  | _ => false
  end.

(** Using a control neither redraws the canvas nor touches what is
    published, logged or awaiting: a new display mode or details setting
    shows on the canvas only from the next cycle. *)
Theorem controls_do_not_redraw (st : State) (ev : Event) :
  is_control ev = true ->
  let st' := step resizeResults st ev in
  canvas st' = canvas st /\
  facesDetected st' = facesDetected st /\
  facesData st' = facesData st /\
  inflight st' = inflight st /\
  console st' = console st.
Proof.
  intros Hev. cbn zeta.
  destruct ev as [nets|id|k settled| |mode|]; try discriminate Hev; cbn [step].
  - destruct (render_frame st (setDetectionEnabled (negb (detectionEnabled st)) st))
      as (_ & Hn & Hd & _ & _ & Hc & _ & Hi & Hl).
    rewrite Hn, Hd, Hc, Hi, Hl. destruct st; repeat split; reflexivity.
  - destruct (render_frame st (setDisplayMode mode st))
      as (_ & Hn & Hd & _ & _ & Hc & _ & Hi & Hl).
    rewrite Hn, Hd, Hc, Hi, Hl. destruct st; repeat split; reflexivity.
  - destruct (render_frame st (setShowDetails (negb (showDetails st)) st))
      as (_ & Hn & Hd & _ & _ & Hc & _ & Hi & Hl).
    rewrite Hn, Hd, Hc, Hi, Hl. destruct st; repeat split; reflexivity.
Qed.

Lemma step_refs (st : State) (ev : Event) :
  video (step resizeResults st ev) = video st /\
  canvasRef (step resizeResults st ev) = canvasRef st.
Proof.
  destruct ev as [nets|id|k settled| |mode|]; cbn [step].
  - destruct (loading st); [|split; reflexivity].
    destruct (render_frame st (loadModels_resume nets (set_loading false st)))
      as (_ & _ & _ & Hv & Hr & _).
    destruct (loadModels_resume_keeps nets (set_loading false st))
      as (_ & _ & _ & Hv' & Hr' & _).
    rewrite Hv, Hr, Hv', Hr'. destruct st; split; reflexivity.
  - destruct (find _ (timers st)) as [[id' callback]|]; [|split; reflexivity].
    pose proof (detectFaces_begin_keeps callback st) as (_ & _ & _ & Hv & Hr & _).
    destruct (detectFaces_begin callback st) as [st' [p|]]; cbn [fst] in *.
    + rewrite <- Hv, <- Hr. destruct st'; split; reflexivity.
    + split; assumption.
  - destruct (nth_error (inflight st) k) as [p|]; [|split; reflexivity].
    destruct (detectFaces_resume_keeps resizeResults p settled
                (set_inflight (remove_nth k (inflight st)) st)) as (_ & Hv & Hr).
    rewrite Hv, Hr. destruct st; split; reflexivity.
  - destruct (render_frame st (setDetectionEnabled (negb (detectionEnabled st)) st))
      as (_ & _ & _ & Hv & Hr & _).
    rewrite Hv, Hr. destruct st; split; reflexivity.
  - destruct (render_frame st (setDisplayMode mode st))
      as (_ & _ & _ & Hv & Hr & _).
    rewrite Hv, Hr. destruct st; split; reflexivity.
  - destruct (render_frame st (setShowDetails (negb (showDetails st)) st))
      as (_ & _ & _ & Hv & Hr & _).
    rewrite Hv, Hr. destruct st; split; reflexivity.
Qed.

Lemma run_refs (events : list Event) :
  forall st,
    video (run resizeResults st events) = video st /\
    canvasRef (run resizeResults st events) = canvasRef st.
Proof.
  induction events as [|ev events IH]; intros st; [split; reflexivity|].
  cbn [run fold_left]. destruct (IH (step resizeResults st ev)) as [Hv Hr].
  destruct (step_refs st ev) as [Hv' Hr'].
  unfold run in *. rewrite Hv, Hr, Hv', Hr'. split; reflexivity.
Qed.

(** No overlap protection: whenever the models are loaded and detection is
    enabled, with the video and the canvas in place, the interval is armed
    and each time it fires it starts a new cycle, however many earlier
    cycles are still awaiting their detection, and blanks the canvas at
    once by matching it to the video. *)
Theorem every_tick_starts_a_cycle (video0 : Dimensions) (context2d0 : bool)
    (history : list Event) :
  let st := run resizeResults (mounted (Some video0) true context2d0) history in
  isModelLoaded st = true -> detectionEnabled st = true ->
  exists id,
    timers st = [(id, closure st)] /\
    let st' := step resizeResults st (IntervalFires id) in
    inflight st' =
      inflight st ++ [{| p_closure := closure st; p_displaySize := video0 |}] /\
    canvas st' =
      {| size := video0; context2d := context2d (canvas st); drawn := [] |}.
Proof.
  intros st Hl He.
  assert (H : IntervalInv st).
  { apply run_IntervalInv, mounted_IntervalInv. }
  unfold IntervalInv in H. rewrite Hl, He in H. cbn [andb] in H.
  destruct H as (id & Ht & _). exists id. split; [exact Ht|].
  destruct (run_refs history (mounted (Some video0) true context2d0))
    as [Hv Hr].
  fold st in Hv, Hr. cbn in Hv, Hr.
  cbn zeta. cbn [step]. rewrite Ht. cbn [find fst]. rewrite Pos.eqb_refl.
  rewrite (detectFaces_begin_passes (closure st) st video0 Hv Hr Hl He).
  destruct st; cbn. split; reflexivity.
Qed.

(** Teardown: unmounting from any state the component can reach leaves no
    interval armed, so nothing fires against the detached video and
    canvas. *)
Theorem unmount_clears_the_interval (video0 : option Dimensions)
    (canvasRef0 context2d0 : bool) (history : list Event) :
  let st := run resizeResults (mounted video0 canvasRef0 context2d0) history in
  timers (unmount st) = [] /\
  video (unmount st) = None /\
  canvasRef (unmount st) = false /\
  (forall id,
      step resizeResults (unmount st) (IntervalFires id) = unmount st).
Proof.
  intros st.
  assert (Ha : Armed st) by apply run_Armed, mounted_Armed.
  assert (Ht : timers (unmount st) = []).
  { unfold unmount. rewrite (clearCurrentInterval_armed st Ha).
    rewrite clearCurrentInterval_idle by (destruct st; reflexivity).
    destruct st; reflexivity. }
  split; [exact Ht|].
  split; [unfold unmount; destruct (clearCurrentInterval _); reflexivity|].
  split; [unfold unmount; destruct (clearCurrentInterval _); reflexivity|].
  intros id. apply interval_not_armed, Ht.
Qed.

(** The detection button tells the truth about the interval: in any state
    the component can reach, when it reads "Iniciar Detección" no interval
    is armed, and when it reads "Pausar Detección" with the models loaded
    exactly one is. *)
Theorem detection_button_reflects_interval (video0 : option Dimensions)
    (canvasRef0 context2d0 : bool) (history : list Event) :
  let st := run resizeResults (mounted video0 canvasRef0 context2d0) history in
  (button_label (detectionButton (view st)) = "Iniciar Detección" ->
   timers st = []) /\
  (button_label (detectionButton (view st)) = "Pausar Detección" ->
   loadingOverlay (view st) = false ->
   exists id, timers st = [(id, closure st)]).
Proof.
  intros st.
  assert (H : IntervalInv st).
  { apply run_IntervalInv, mounted_IntervalInv. }
  unfold IntervalInv in H. unfold view. cbn [detectionButton button_label loadingOverlay].
  destruct (detectionEnabled st); split.
  - intros Hlabel. discriminate Hlabel.
  - intros _ Hover. apply negb_false_iff in Hover. rewrite Hover in H.
    destruct H as (id & Ht & _). exists id. exact Ht.
  - intros _. rewrite andb_false_r in H. exact H.
  - intros Hlabel. discriminate Hlabel.
Qed.

End EventProperties.

Lemma model_readiness_is_permanent_witness :
  isModelLoaded
    (run same_size example_shown
         [ModelsSettled expression_net_fails; ClickDetection; IntervalFires 1])
  = true.
Proof.
  apply (model_readiness_is_permanent same_size). reflexivity.
Defined.

Lemma nothing_before_models_load_witness :
  let st := run same_size example_start
                [ClickDetails; IntervalFires 1;
                 ModelsSettled expression_net_fails; SelectDisplayMode mode_mesh] in
  detailsPanel (view st) = None /\ timers st = [].
Proof.
  intros st.
  destruct (nothing_before_models_load same_size
              (Some {| width := VIDEO_WIDTH; height := VIDEO_HEIGHT |}) true true
              [ClickDetails; IntervalFires 1;
               ModelsSettled expression_net_fails; SelectDisplayMode mode_mesh])
    as (_ & Hp & _ & Ht & _).
  - reflexivity.
  - split; [exact Hp | exact Ht].
Defined.

Lemma counter_agrees_with_details_list_witness :
  detailsPanel (view example_shown) = None <-> facesDetected example_shown = 0%nat.
Proof.
  apply (counter_agrees_with_details_list same_size
           (Some {| width := VIDEO_WIDTH; height := VIDEO_HEIGHT |}) true true
           [ ModelsSettled all_ok; IntervalFires 1;
             DetectionSettled 0 (Js.Fulfilled [example_detection]) ]).
Defined.

Lemma one_interval_while_running_witness :
  timers example_shown <> [] /\
  detectionInterval example_shown = Some 1%positive.
Proof.
  destruct (one_interval_while_running same_size
              (Some {| width := VIDEO_WIDTH; height := VIDEO_HEIGHT |}) true true
              [ ModelsSettled all_ok; IntervalFires 1;
                DetectionSettled 0 (Js.Fulfilled [example_detection]) ])
    as (_ & [_ Harmed] & Href).
  split.
  - apply Harmed. split; reflexivity.
  - apply (Href 1%positive (closure example_shown)). left. reflexivity.
Defined.

Lemma interval_callback_is_current_witness :
  let st := run same_size example_start
                [ModelsSettled all_ok; SelectDisplayMode mode_mesh; ClickDetails] in
  {| c_isModelLoaded := true; c_detectionEnabled := true;
     c_displayMode := mode_mesh; c_showDetails := false |} = closure st.
Proof.
  intros st.
  destruct (interval_callback_is_current same_size
              (Some {| width := VIDEO_WIDTH; height := VIDEO_HEIGHT |}) true true
              [ModelsSettled all_ok; SelectDisplayMode mode_mesh; ClickDetails])
    as [Hcb _].
  apply (Hcb 3%positive). left. reflexivity.
Defined.

Lemma controls_do_not_redraw_witness :
  canvas (step same_size example_shown (SelectDisplayMode mode_mesh))
  = canvas example_shown.
Proof.
  apply (controls_do_not_redraw same_size example_shown
           (SelectDisplayMode mode_mesh)).
  reflexivity.
Defined.

Lemma every_tick_starts_a_cycle_witness :
  exists id,
    length (inflight (step same_size
                        (step same_size example_shown (IntervalFires id))
                        (IntervalFires id)))
    = 2%nat.
Proof.
  destruct (every_tick_starts_a_cycle same_size
              {| width := VIDEO_WIDTH; height := VIDEO_HEIGHT |} true
              [ ModelsSettled all_ok; IntervalFires 1;
                DetectionSettled 0 (Js.Fulfilled [example_detection]) ])
    as (id & Ht & _).
  - reflexivity.
  - reflexivity.
  - exists id. injection Ht as <-. reflexivity.
Defined.

Lemma unmount_clears_the_interval_witness :
  timers example_shown <> [] /\ timers (unmount example_shown) = [].
Proof.
  split; [discriminate|].
  apply (unmount_clears_the_interval same_size
           (Some {| width := VIDEO_WIDTH; height := VIDEO_HEIGHT |}) true true
           [ ModelsSettled all_ok; IntervalFires 1;
             DetectionSettled 0 (Js.Fulfilled [example_detection]) ]).
Defined.

Lemma detection_button_reflects_interval_witness :
  timers (step same_size example_shown ClickDetection) = [].
Proof.
  apply (detection_button_reflects_interval same_size
           (Some {| width := VIDEO_WIDTH; height := VIDEO_HEIGHT |}) true true
           [ ModelsSettled all_ok; IntervalFires 1;
             DetectionSettled 0 (Js.Fulfilled [example_detection]);
             ClickDetection ]).
  reflexivity.
Defined.

(** ** The details list *)

Lemma mapi_nth_error {A B : Type} (f : A -> nat -> B) (l : list A) :
  forall index i a,
    nth_error l i = Some a ->
    nth_error (mapi f l index) i = Some (f a (index + i)%nat).
Proof.
  induction l as [|b l IH]; intros index i a H.
  - destruct i; discriminate H.
  - destruct i as [|i]; cbn in *.
    + injection H as ->. rewrite Nat.add_0_r. reflexivity.
    + rewrite (IH (S index) i a H). rewrite Nat.add_succ_r. reflexivity.
Qed.

(** The details list has one card per published face, in the order of the
    collection, and the card of the face at index [i] is numbered
    [i + 1]. *)
Theorem details_list_cards_in_order (faces : list FaceData) (i : nat)
    (face : FaceData) :
  nth_error faces i = Some face ->
  exists cards,
    detailsList faces = Some cards /\
    length cards = length faces /\
    nth_error cards i = Some (faceCard face i) /\
    card_title (faceCard face i) = [TText "Rostro #"; TInteger (Z.of_nat i + 1)].
Proof.
  intros H. unfold detailsList.
  destruct faces as [|first rest]; [destruct i; discriminate H|].
  cbn [length Nat.ltb Nat.leb].
  exists (mapi faceCard (first :: rest) 0). split; [reflexivity|].
  split; [exact (mapi_length faceCard (first :: rest) 0)|].
  split; [|reflexivity].
  apply (mapi_nth_error faceCard (first :: rest) 0 i face H).
Qed.

Lemma details_list_cards_in_order_witness :
  exists cards,
    detailsList (facesData example_shown) = Some cards /\
    nth_error cards 0 = Some (faceCard (toFaceData example_detection) 0).
Proof.
  destruct (details_list_cards_in_order (facesData example_shown) 0
              (toFaceData example_detection)) as (cards & Hc & _ & Hn & _).
  - reflexivity.
  - exists cards. split; [exact Hc | exact Hn].
Defined.

(** ** The application shell *)

Lemma last_default {A : Type} (l : list A) :
  forall a d d', last (a :: l) d = last (a :: l) d'.
Proof.
  induction l as [|b l IH]; intros a d d'; [reflexivity|].
  change (last (b :: l) d = last (b :: l) d'). apply IH.
Qed.

Lemma clickTabs_last (clicks : list Tab) :
  forall start, fold_left clickTab clicks start = last clicks start.
Proof.
  induction clicks as [|tab clicks IH]; intros start; [reflexivity|].
  cbn [fold_left]. rewrite IH. unfold clickTab.
  destruct clicks as [|t clicks]; [reflexivity|].
  change (last (t :: clicks) tab = last (t :: clicks) start).
  apply last_default.
Qed.

(** After any sequence of clicks on the two tabs, the detector shown is the
    one of the last click (the motion detector when there was none), and
    exactly one tab button is highlighted: the one of the detector
    shown. *)
Theorem app_shows_last_clicked_tab (clicks : list Tab) :
  let shown := App (clickTabs clicks) in
  content shown =
    match last clicks tab_motion with
    | tab_motion => MotionDetector
    | tab_face => FaceDetector
    end /\
  (motionButton shown = tabButton true <-> content shown = MotionDetector) /\
  (faceButton shown = tabButton true <-> content shown = FaceDetector) /\
  (motionButton shown = tabButton true \/ faceButton shown = tabButton true) /\
  motionButton shown <> faceButton shown.
Proof.
  cbn zeta. unfold clickTabs, initialTab. rewrite clickTabs_last.
  destruct (last clicks tab_motion); cbn;
    repeat split; intros; try reflexivity; try discriminate; auto.
Qed.

(** ** The successful load *)

Section LoadProperties.

Variable resizeResults : Detections -> Dimensions -> Completion Detections.

(** When the five loads are fulfilled, the success line is logged, the
    loading overlay goes away, and the interval is armed in the same step
    if detection is enabled, and not armed if it was paused meanwhile. *)
Theorem successful_load_starts_detection (video0 : option Dimensions)
    (canvasRef0 context2d0 : bool) (before : list Event) (nets : ModelLoads) :
  Forall (fun ev => forall n, ev <> ModelsSettled n) before ->
  all_five_loaded nets = true ->
  let st0 := run resizeResults (mounted video0 canvasRef0 context2d0) before in
  let st := step resizeResults st0 (ModelsSettled nets) in
  loadingOverlay (view st) = false /\
  console st = console st0 ++ [console_log "Modelos cargados correctamente"] /\
  (detectionEnabled st0 = true -> exists id, timers st = [(id, closure st)]) /\
  (detectionEnabled st0 = false -> timers st = []).
Proof.
  intros Hbefore Hok st0 st.
  destruct (run_while_loading resizeResults before
              (mounted video0 canvasRef0 context2d0)
              (mounted_NotReady video0 canvasRef0 context2d0) Hbefore)
    as [_ Hload].
  fold st0 in Hload. cbn in Hload.
  assert (Hl : isModelLoaded st = true).
  { subst st. rewrite step_isModelLoaded, Hload, Hok. apply orb_true_r. }
  assert (Hinv : IntervalInv st).
  { apply step_IntervalInv, run_IntervalInv, mounted_IntervalInv. }
  assert (Hst : st = render st0 (loadModels_resume nets (set_loading false st0))).
  { subst st. cbn [step]. rewrite Hload. reflexivity. }
  destruct (render_frame st0 (loadModels_resume nets (set_loading false st0)))
    as (Hc & _ & _ & _ & _ & _ & _ & _ & Hlog).
  rewrite <- Hst in Hc, Hlog.
  assert (He : detectionEnabled st = detectionEnabled st0).
  { change (detectionEnabled st) with (c_detectionEnabled (closure st)).
    rewrite Hc. cbn [closure c_detectionEnabled].
    destruct (loadModels_resume_frame nets (set_loading false st0)) as (Hd & _).
    rewrite Hd. destruct st0; reflexivity. }
  split; [unfold view; cbn [loadingOverlay]; rewrite Hl; reflexivity|].
  split.
  - rewrite Hlog, (loadModels_resume_loaded nets _ Hok).
    destruct st0; reflexivity.
  - unfold IntervalInv in Hinv. rewrite Hl, He in Hinv. split; intros Hen;
      rewrite Hen in Hinv; cbn [andb] in Hinv.
    + destruct Hinv as (id & Ht & _). exists id. exact Ht.
    + exact Hinv.
Qed.

End LoadProperties.

Lemma successful_load_starts_detection_witness :
  let st :=
    step same_size (run same_size example_start [ClickDetails])
         (ModelsSettled all_ok) in
  exists id, timers st = [(id, closure st)].
Proof.
  destruct (successful_load_starts_detection same_size
              (Some {| width := VIDEO_WIDTH; height := VIDEO_HEIGHT |}) true true
              [ClickDetails] all_ok) as (_ & _ & Harmed & _).
  - repeat constructor. discriminate.
  - reflexivity.
  - exact (Harmed eq_refl).
Defined.

Lemma app_shows_last_clicked_tab_witness :
  content (App (clickTabs [tab_face; tab_motion; tab_face])) = FaceDetector /\
  faceButton (App (clickTabs [tab_face; tab_motion; tab_face])) = tabButton true.
Proof.
  destruct (app_shows_last_clicked_tab [tab_face; tab_motion; tab_face])
    as (Hc & _ & [_ Hf] & _).
  split; [exact Hc | exact (Hf Hc)].
Defined.
